(** * Extendables: the module import system of [minified.jsx]

    A shallow embedding of the CommonJS-like loader of Extendables
    ([require], [extract], the [Module] constructor, [load_modules]) and of
    the start-up log buffer, with the properties its specification states.

    Conventions of the embedding.
    - A JavaScript object used as a map is an association list in insertion
      order; reading a property takes the first binding, writing replaces
      the binding in place or appends it.
    - A [File]/[Folder] host object is a handle on a file-system tree: its
      name, its absolute URI (as path segments) and the entry it denotes.
    - Code that can throw returns a [result]; code that also mutates the
      interpreter state runs in the monad [M]. *)

From Stdlib Require Import String Ascii List ZArith Bool Arith Lia DecimalString.
Import ListNotations.
Open Scope string_scope.

#[local] Set Warnings "-register-all".

(** ** Strings, as the script uses them *)

(** The line feed of the JavaScript literal ["\n"]. *)
Definition nl : string := String (ascii_of_nat 10) EmptyString.

(** [String.prototype.indexOf]: position of the first occurrence, or -1. *)
Definition indexOf (this substring : string) : Z :=
  match index 0 substring this with
  | Some n => Z.of_nat n
  | None => (-1)%Z
  end.

(** [String.prototype.endswith] of the patches:
    [new Boolean(this.length && this.indexOf(substring) ==
                 (this.length - substring.length)).valueOf()]. *)
Definition endswith (this substring : string) : bool :=
  if Nat.eqb (String.length this) 0 then false
  else Z.eqb (indexOf this substring)
             (Z.of_nat (String.length this) - Z.of_nat (String.length substring)).

(** [String.prototype.split] with a one-character separator. *)
Fixpoint split (sep : ascii) (s : string) : list string :=
  match s with
  | EmptyString => [EmptyString]
  | String c s' =>
      if Ascii.eqb c sep then EmptyString :: split sep s'
      else match split sep s' with
           | [] => [String c EmptyString]
           | w :: ws => String c w :: ws
           end
  end.

(** What the host's glob mask ["*.suffix"] accepts: any name ending with
    the suffix. *)
Definition glob_star (suffix nm : string) : bool :=
  let n := String.length nm in
  let k := String.length suffix in
  Nat.leb k n && String.eqb (substring (n - k) k nm) suffix.

(** ** JavaScript values and objects *)

Inductive value : Type :=
  | VUndefined
  | VBool (b : bool)
  | VNum (n : Z)
  | VStr (s : string)
  | VFun (fname : string)
  | VObj (props : list (string * value)).

(** The own properties of an object. *)
Definition obj : Type := list (string * value).

Section Properties.
Context {A : Type}.

(** [o.hasOwnProperty(k)] and the own part of [o[k]]. *)
Fixpoint get_own (k : string) (o : list (string * A)) : option A :=
  match o with
  | [] => None
  | (k', v) :: o' => if String.eqb k' k then Some v else get_own k o'
  end.

(** [o[k] = v]. *)
Fixpoint set_prop (k : string) (v : A) (o : list (string * A)) : list (string * A) :=
  match o with
  | [] => [(k, v)]
  | (k', v') :: o' =>
      if String.eqb k' k then (k, v) :: o' else (k', v') :: set_prop k v o'
  end.

Definition hasOwnProperty (o : list (string * A)) (k : string) : bool :=
  match get_own k o with Some _ => true | None => false end.
End Properties.

(** The enumerable properties the patches install on [Object.prototype];
    every object created by a literal inherits them. *)
Definition Object_prototype : obj :=
  map (fun f => (f, VFun f))
      ["merge"; "extend"; "clone"; "keys"; "values"; "is"; "has"; "has_own";
       "to_console"; "serialize"; "deserialize"; "to"].

(** [o[k]] for an object literal: own property, else the prototype's,
    else [undefined]. *)
Definition get_prop (o : obj) (k : string) : value :=
  match get_own k o with
  | Some v => v
  | None => match get_own k Object_prototype with
            | Some v => v
            | None => VUndefined
            end
  end.

(** The names a [for (var name in o)] loop visits: the own properties,
    then the enumerable inherited ones that are not shadowed. *)
Definition for_in_names (o : obj) : list string :=
  map fst o ++
  filter (fun k => negb (hasOwnProperty o k)) (map fst Object_prototype).

(** ** Errors *)

Inductive JSError : Type :=
  | Error (message : string)   (* [Error("...")], thrown by the script *)
  | TypeError                  (* raised by the host: member access or call on
                                  [undefined]/[null], call of a non-function *)
  | HostError (what : string). (* anything else a module body throws *)

Inductive result (A : Type) : Type :=
  | Return (a : A)
  | Throw (e : JSError).
Arguments Return {A} a.
Arguments Throw {A} e.

Definition rbind {A B} (r : result A) (k : A -> result B) : result B :=
  match r with
  | Return a => k a
  | Throw e => Throw e
  end.

(** ** The file system behind [File] and [Folder] objects *)

Definition path : Type := list string.
Bind Scope list_scope with path.

Inductive node : Type :=
  | NFile
  | NAlias (target : path)
  | NDir (entries : list (string * node)).

(** A [File] or [Folder] object. [displayName] is the decoded [name]; names
    here carry no escapes, so both are the same string. *)
Record FileObject : Type := mkFileObject {
  name : string;
  absoluteURI : path;
  entry : node
}.

Definition displayName (f : FileObject) : string := name f.

(** [f.is(Folder)], that is [f instanceof Folder]: an alias is a [File]. *)
Definition is_Folder (f : FileObject) : bool :=
  match entry f with NDir _ => true | _ => false end.

(** [f.alias]. *)
Definition alias (f : FileObject) : bool :=
  match entry f with NAlias _ => true | _ => false end.

Fixpoint lookup_entry (seg : string) (es : list (string * node)) : option node :=
  match es with
  | [] => None
  | (n, c) :: es' => if String.eqb n seg then Some c else lookup_entry seg es'
  end.

(** The entry an absolute URI denotes under the root [nd]. *)
Fixpoint fs_find (nd : node) (p : path) : option node :=
  match p with
  | [] => Some nd
  | seg :: p' =>
      match nd with
      | NDir es =>
          match lookup_entry seg es with
          | Some c => fs_find c p'
          | None => None
          end
      | _ => None
      end
  end.

(** The objects [Folder.getFiles] builds for the entries of a folder at
    [base]. *)
Definition listing (base : path) (es : list (string * node)) : list FileObject :=
  map (fun '(n, c) => mkFileObject n (base ++ [n])%list c) es.

(** [function _is_valid_module (file_or_folder)]. *)
Definition _is_valid_module (file_or_folder : FileObject) : bool :=
  is_Folder file_or_folder || endswith (name file_or_folder) ".jsx".

(** ** Module objects *)

(** What the constructor [Module] stores in [this]: [id], [uri], [packaged]
    and [submodules]. The mutable field [exports] lives in the interpreter
    state (see [St]). *)
Inductive Module_ : Type := mkModule {
  id : string;
  uri : path;
  packaged : bool;
  submodules : list (string * Module_)
}.

(** [file_or_folder.displayName.split('.')[0]]. *)
Definition id_of (f : FileObject) : string :=
  hd "" (split "." (displayName f)).

(** [function Module (file_or_folder, is_package)] on the object named [nm]
    at [u] that denotes the entry [nd].

    [extract] is the [forEach] of [extract_submodules] over
    [base.getFiles(_is_valid_module)], where [base] is the folder itself or,
    when [is_package] holds, the folder after [changePath("./lib")]; a
    folder that does not exist lists as [null], and [null.forEach] is a
    [TypeError]. Submodules are built by [new Module(submodule)], whose
    second argument is [undefined]. *)
Fixpoint Module_at (nm : string) (u : path) (nd : node) (is_package : bool)
  {struct nd} : result Module_ :=
  let this_id := id_of (mkFileObject nm u nd) in
  match nd with
  | NDir es =>
      let extract :=
        fix extract (base : path) (es : list (string * node))
                    (subs : list (string * Module_)) {struct es}
          : result (list (string * Module_)) :=
          match es with
          | [] => Return subs
          | (n, c) :: rest =>
              if _is_valid_module (mkFileObject n (base ++ [n])%list c) then
                match Module_at n (base ++ [n])%list c false with
                | Return submodule =>
                    extract base rest (set_prop (id submodule) submodule subs)
                | Throw e => Throw e
                end
              else extract base rest subs
          end in
      let in_lib :=
        fix in_lib (es : list (string * node)) {struct es}
          : result (list (string * Module_)) :=
          match es with
          | [] => Throw TypeError
          | (n, c) :: rest =>
              if String.eqb n "lib" then
                match c with
                | NDir les => extract (u ++ ["lib"])%list les []
                | _ => Throw TypeError
                end
              else in_lib rest
          end in
      match (if is_package then in_lib es else extract u es []) with
      | Return subs => Return (mkModule this_id u true subs)
      | Throw e => Throw e
      end
  | _ => Return (mkModule this_id u false [])
  end.

Definition new_Module (file_or_folder : FileObject) (is_package : bool)
  : result Module_ :=
  Module_at (name file_or_folder) (absoluteURI file_or_folder)
            (entry file_or_folder) is_package.

(** [Array.prototype.forEach] over a dense array, with a callback that
    updates [s] and may throw. *)
Fixpoint forEach {A S : Type} (this : list A) (fun_ : A -> S -> result S) (s : S)
  : result S :=
  match this with
  | [] => Return s
  | x :: this' => rbind (fun_ x s) (forEach this' fun_)
  end.

(** [folder.getFiles(mask)] with a function mask, for the folder object at
    [base] that denotes [nd]: [None] is the [null] the host returns when the
    folder does not exist. *)
Definition getFiles (base : path) (nd : option node) (mask : FileObject -> bool)
  : option (list FileObject) :=
  match nd with
  | Some (NDir es) => Some (filter mask (listing base es))
  | _ => None
  end.

(** [this.extract_submodules], for a folder at [u] with entries [es]; the
    loops inside [Module_at] compute this (lemma [Module_at_eq]). *)
Definition extract_submodules (u : path) (es : list (string * node))
  (is_package : bool) : result (list (string * Module_)) :=
  let '(base, base_nd) :=
    if is_package then ((u ++ ["lib"])%list, lookup_entry "lib" es)
    else (u, Some (NDir es)) in
  match getFiles base base_nd _is_valid_module with
  | None => Throw TypeError
  | Some submodule_files =>
      forEach submodule_files
        (fun submodule subs =>
           rbind (new_Module submodule false)
                 (fun submodule => Return (set_prop (id submodule) submodule subs)))
        []
  end.

(** A search-path entry of [settings.package_directories]: a string, taken
    relative to [Folder.extendables], or a folder object. *)
Inductive packagefolder : Type :=
  | PFString (relative : path)
  | PFFolder (folder : path).

Section Startup.
(** The file system, and [Folder.extendables]. *)
Variable fs_root : node.
Variable Folder_extendables : path.

(** [from_basepath]: [new Folder(rel).at(base)]. *)
Definition at_ (rel base : path) : path := (base ++ rel)%list.

(** [file.resolve()]: the object the alias points to, [null] when the
    target is missing; [new Module(null, true)] then fails on
    [null.displayName]. *)
Definition resolve (f : FileObject) : result FileObject :=
  match entry f with
  | NAlias t =>
      match fs_find fs_root t with
      | Some nd => Return (mkFileObject (last t "") t nd)
      | None => Throw TypeError
      end
  | _ => Return f
  end.

(** [function load_modules (packagefolders)], threading [__modules__]. *)
Definition load_modules (packagefolders : list packagefolder)
  (__modules__ : list (string * Module_)) : result (list (string * Module_)) :=
  forEach packagefolders
    (fun packagefolder __modules__ =>
       let folder :=
         match packagefolder with
         | PFString s => at_ s Folder_extendables
         | PFFolder f => f
         end in
       match getFiles folder (fs_find fs_root folder) _is_valid_module with
       | None => Throw TypeError
       | Some packages =>
           forEach packages
             (fun file_or_folder __modules__ =>
                rbind (if alias file_or_folder then resolve file_or_folder
                       else Return file_or_folder)
                  (fun file_or_folder =>
                     rbind (new_Module file_or_folder true)
                       (fun module =>
                          Return (set_prop (id module) module __modules__))))
             __modules__
       end)
    __modules__.

(** [this.get_tests]: [new Folder("test").at(self.uri)], then
    [getFiles("*.specs")] when the folder exists. *)
Definition get_tests (self : Module_) : list FileObject :=
  let testfolder := at_ ["test"] (uri self) in
  match getFiles testfolder (fs_find fs_root testfolder)
                 (fun f => glob_star ".specs" (name f)) with
  | Some files => files
  | None => []
  end.
End Startup.

(** ** Interpreter state *)

(** A [Module] object is identified by its position under [__modules__]:
    the ids on the way to it. *)
Definition ref : Type := list string.

Fixpoint ref_eqb (r1 r2 : ref) : bool :=
  match r1, r2 with
  | [], [] => true
  | a :: r1', b :: r2' => String.eqb a b && ref_eqb r1' r2'
  | _, _ => false
  end.

(** A log message is the argument array of [syslog.log]:
    [[severity, template, args...]]. *)
Definition message : Type := list value.

Record St : Type := mkSt {
  global : obj;                   (* [$.global] *)
  log_buffer : list message;      (* [var log_buffer = []] *)
  exports_of : list (ref * obj);  (* the [exports] field of the Module objects *)
  syslog : list message           (* the calls [syslog.log] has received *)
}.

Definition set_global (g : obj) (st : St) : St :=
  mkSt g (log_buffer st) (exports_of st) (syslog st).

(** [log_buffer.push(m)]. *)
Definition push_log (m : message) (st : St) : St :=
  mkSt (global st) (log_buffer st ++ [m]) (exports_of st) (syslog st).


Fixpoint store_set (r : ref) (e : obj) (s : list (ref * obj)) : list (ref * obj) :=
  match s with
  | [] => [(r, e)]
  | (r', e') :: s' =>
      if ref_eqb r' r then (r, e) :: s' else (r', e') :: store_set r e s'
  end.

(** [self.exports = e] for the module at [r]. *)
Definition set_exports (r : ref) (e : obj) (st : St) : St :=
  mkSt (global st) (log_buffer st) (store_set r e (exports_of st)) (syslog st).

(** [syslog.log.apply(null, m)]: the logging package is a collaborator, seen
    through the calls it receives. *)
Definition syslog_log (m : message) (st : St) : St :=
  mkSt (global st) (log_buffer st) (exports_of st) (syslog st ++ [m]).

(** Computations that read and write the state and may throw. *)
Definition M (A : Type) : Type := St -> result A * St.

Definition ret {A} (a : A) : M A := fun st => (Return a, st).
Definition throw {A} (e : JSError) : M A := fun st => (Throw e, st).
Definition bind {A B} (c : M A) (k : A -> M B) : M B :=
  fun st =>
    match c st with
    | (Return a, st') => k a st'
    | (Throw e, st') => (Throw e, st')
    end.
Definition modify (f : St -> St) : M unit := fun st => (Return tt, f st).
Definition lift {A} (r : result A) : M A := fun st => (r, st).

Declare Scope js_scope.
Delimit Scope js_scope with js.
Notation "x <- c ;; k" := (bind c (fun x => k))
  (at level 61, c at next level, right associativity) : js_scope.
Notation "c ;; k" := (bind c (fun _ => k))
  (at level 61, right associativity) : js_scope.
Open Scope js_scope.

(** ** The loader *)

(** What the body of a module file leaves behind when [$.evalFile(file)]
    stops. The body runs with the variables [module] and [exports] of
    [Module.eval] in scope, so it can assign to them and to their
    properties.
    - [state_after]: the interpreter state.
    - [exports_after]: the object the variable [exports] holds.
    - [id_after]: what the expression [module.id] evaluates to: the id
      the loader wrote unless the body assigned to the property or to the
      variable, and a [TypeError] when the variable holds [null] or
      [undefined].
    - [thrown]: the exception that ended the body, if one did.
    The variables [log_buffer] and [syslog] hold the array and the logger
    of the start-up script throughout, as [St] has them. *)
Record outcome : Type := mkOutcome {
  state_after : St;
  exports_after : obj;
  id_after : result value;
  thrown : option JSError
}.

(** What the host contributes to the loader.
    - [evalFile file module exports st] is [$.evalFile(file)] inside
      [Module.eval]: the body of the file runs with [module] and the fresh
      [exports] in scope and may change the state in any way (also by
      calling [require] itself).
    - [toString v] is the conversion of a value that is no string in
      ["..." + v]; for an object it runs the [valueOf] and [toString] of
      that object, code of the module that may change the state and may
      throw.
    - [error_toString error] is the same conversion for a thrown value. *)
Class Host : Type := {
  evalFile : path -> string * path -> obj -> St -> outcome;
  toString : value -> M string;
  error_toString : JSError -> M string
}.

Section Loader.
Context {host : Host}.

(** [var __modules__], as [load_modules] left it. *)
Variable __modules__ : list (string * Module_).

(** ["..." + v]: a string is taken as it is, any other value is
    converted. *)
Definition concat_text (v : value) : M string :=
  match v with
  | VStr s => ret s
  | _ => toString v
  end.

(** The argument of [log_buffer.push] in the [catch] block of [eval]:
    [[3, "Could not fully load " + module.id + "\n" + error]], evaluated
    from left to right in the state the body left. *)
Definition failure_message (out : outcome) (error : JSError) : M message :=
  v <- lift (id_after out) ;;
  tag <- concat_text v ;;
  text <- error_toString error ;;
  ret [VNum 3; VStr ("Could not fully load " ++ tag ++ nl ++ text)].

(** [this.eval = function (file)]. What the [catch] block throws is not
    caught again. *)
Definition eval (self : Module_) (file : path) : M obj :=
  fun st =>
    let exports : obj := [] in
    let module := (id self, uri self) in
    let out := evalFile file module exports st in
    match thrown out with
    | None => (Return (exports_after out), state_after out)
    | Some error =>
        (m <- failure_message out error ;;
         modify (push_log m) ;;
         ret (exports_after out)) (state_after out)
    end.

(** [this.load = function ()] for the module object at [self_ref].
    [load] returns [self] and every caller reads [.exports] from it at
    once; the model returns that field. In a package,
    [self.submodules['index']] is [undefined] when there is no such child
    ([Object.prototype] has no [index]), and [undefined.load()] is a
    [TypeError]. *)
Fixpoint load (self_ref : ref) (self : Module_) {struct self} : M obj :=
  match self with
  | mkModule _ u p subs =>
      if p then
        (fix index_in (l : list (string * Module_)) : M obj :=
           match l with
           | [] => throw TypeError
           | (k, c) :: l' =>
               if String.eqb k "index" then
                 exports <- load (self_ref ++ ["index"])%list c ;;
                 modify (set_exports self_ref exports) ;;
                 ret exports
               else index_in l'
           end) subs
      else
        exports <- eval self u ;;
        modify (set_exports self_ref exports) ;;
        ret exports
  end.

(** [this.get_submodule = function (terms)]. [None] stands for a value
    that is not a Module object: [undefined], or a function inherited
    from [Object.prototype] when the term is one of its names; calling
    [get_submodule] or [load] on either is a [TypeError]. [terms.shift()]
    of an empty array is [undefined], the property name ["undefined"]. *)
Fixpoint get_submodule (self : Module_) (terms : list string)
  : result (option Module_) :=
  match terms with
  | [] => Return (get_own "undefined" (submodules self))
  | t :: terms' =>
      let submodule := get_own t (submodules self) in
      match terms' with
      | _ :: _ =>
          match submodule with
          | Some s => get_submodule s terms'
          | None => Throw TypeError
          end
      | [] => Return submodule
      end
  end.

(** [function require (module_id)]. [__modules__.hasOwnProperty(module)]
    decides between the two branches; every value of [__modules__] is a
    Module object, so once a package called [hasOwnProperty] is registered
    the method is hidden by an object that cannot be called, and the test
    itself is a [TypeError]. *)
Definition require (module_id : string) : M obj :=
  let terms := split "/" module_id in
  let module := hd "" terms in
  let terms := tl terms in
  if hasOwnProperty __modules__ "hasOwnProperty" then throw TypeError
  else
    match get_own module __modules__ with
    | Some m =>
        match terms with
        | _ :: _ =>
            submodule <- lift (get_submodule m terms) ;;
            match submodule with
            | Some s => load (module :: terms) s
            | None => throw TypeError
            end
        | [] => load [module] m
        end
    | None => throw (Error ("No package named " ++ module_id))
    end.

(** [function extract (module_id)]. *)
Definition extract (module_id : string) : M unit :=
  module <- require module_id ;;
  modify (fun st =>
    fold_left (fun st name_ =>
                 set_global (set_prop name_ (get_prop module name_) (global st)) st)
              (for_in_names module) st).

(** One run of the body of the leaf module [self], with the bookkeeping of
    [eval] and [load] around it and no look at any earlier run: the body
    is evaluated, a failure is put on the log buffer, and the exports the
    body left are stored in the [exports] field of the module at [r] and
    returned. *)
Definition evaluate (r : ref) (self : Module_) : M obj :=
  fun st =>
    let out := evalFile (uri self) (id self, uri self) [] st in
    match thrown out with
    | None =>
        (Return (exports_after out),
         set_exports r (exports_after out) (state_after out))
    | Some error =>
        match failure_message out error (state_after out) with
        | (Return m, st') =>
            (Return (exports_after out),
             set_exports r (exports_after out) (push_log m st'))
        | (Throw e, st') => (Throw e, st')
        end
    end.

(** [n] runs in a row, each from the state the previous one left, up to
    the first one that throws. *)
Fixpoint evaluations (n : nat) (r : ref) (self : Module_) : M (list obj) :=
  match n with
  | O => ret []
  | S n' =>
      e <- evaluate r self ;;
      es <- evaluations n' r self ;;
      ret (e :: es)
  end.

(** [n] calls of [require(module_id)] in a row, collecting the results. *)
Fixpoint require_times (n : nat) (module_id : string) : M (list obj) :=
  match n with
  | O => ret []
  | S n' =>
      e <- require module_id ;;
      es <- require_times n' module_id ;;
      ret (e :: es)
  end.

(** The Module object [require(module_id)] calls [load] on, with its
    position, when the identifier resolves to one. *)
Definition locate (module_id : string) : option (ref * Module_) :=
  let terms := split "/" module_id in
  let module := hd "" terms in
  let terms := tl terms in
  if hasOwnProperty __modules__ "hasOwnProperty" then None
  else
    match get_own module __modules__ with
    | Some m =>
        match terms with
        | _ :: _ =>
            match get_submodule m terms with
            | Return (Some s) => Some (module :: terms, s)
            | _ => None
            end
        | [] => Some ([module], m)
        end
    | None => None
    end.
End Loader.

(** The end of the start-up script:
    [log_buffer.forEach(function (message) { syslog.log.apply(null, message) })]. *)
Definition flush_log_buffer (st : St) : result St :=
  forEach (log_buffer st) (fun message st => Return (syslog_log message st)) st.

(** The children of [m] come from the valid objects among [files]: the ids
    of the children are the ids of those objects, and every child was built
    from one of them, as a package exactly when that object is a folder. *)
Definition children_from (m : Module_) (files : list FileObject) : Prop :=
  (forall k, In k (map fst (submodules m)) <->
             exists f, In f files /\ _is_valid_module f = true /\ id_of f = k)
  /\ (forall k c, In (k, c) (submodules m) ->
                  exists f, In f files /\ _is_valid_module f = true /\
                            k = id_of f /\ id c = k /\
                            uri c = absoluteURI f /\ packaged c = is_Folder f).

(** A term of a module identifier: a string without ["/"]. *)
Fixpoint is_term (s : string) : bool :=
  match s with
  | EmptyString => true
  | String c s' => negb (Ascii.eqb c "/") && is_term s'
  end.

(** ** Sample data: module bodies, a registry, a state

    The bodies: [bad.jsx] throws at once; [good.jsx] sets [exports.ok];
    [rogue.jsx] assigns ["other"] to [module.id] and throws; [mute.jsx]
    counts its run in [$.global.counter] and throws an object whose
    [toString] throws; any other file increments [$.global.counter] and
    exports the new count as [n]. The host converts [undefined], booleans
    and (small) integers as the language does and any other value as an
    object without a [toString] of its own. *)

Definition counter_of (g : obj) : Z :=
  match get_own "counter" g with
  | Some (VNum n) => n
  | _ => 0%Z
  end.

Definition sample_evalFile (file : path) (module : string * path) (exports : obj)
  (st : St) : outcome :=
  let untouched := Return (VStr (fst module)) in
  let n := (counter_of (global st) + 1)%Z in
  let counted := set_global (set_prop "counter" (VNum n) (global st)) st in
  if String.eqb (last file "") "bad.jsx" then
    mkOutcome st exports untouched (Some (HostError "boom"))
  else if String.eqb (last file "") "good.jsx" then
    mkOutcome st (set_prop "ok" (VBool true) exports) untouched None
  else if String.eqb (last file "") "rogue.jsx" then
    mkOutcome st exports (Return (VStr "other")) (Some (HostError "boom"))
  else if String.eqb (last file "") "mute.jsx" then
    mkOutcome counted exports untouched (Some (HostError "mute"))
  else
    mkOutcome counted (set_prop "n" (VNum n) exports) untouched None.

Definition sample_toString (e : JSError) : string :=
  match e with
  | Error m => "Error: " ++ m
  | TypeError => "TypeError"
  | HostError w => w
  end.

Definition sample_host : Host :=
  {| evalFile := sample_evalFile;
     toString := fun v =>
       ret match v with
           | VUndefined => "undefined"
           | VBool true => "true"
           | VBool false => "false"
           | VNum n => NilZero.string_of_int (Z.to_int n)
           | _ => "[object Object]"
           end;
     error_toString := fun e =>
       match e with
       | HostError "mute" => throw (HostError "toString")
       | _ => ret (sample_toString e)
       end |}.

Definition leaf (i : string) (u : path) : Module_ := mkModule i u false [].

Definition sample_modules : list (string * Module_) :=
  [("p", mkModule "p" ["p"] true
           [("index", leaf "index" ["p"; "lib"; "index.jsx"]);
            ("good", leaf "good" ["p"; "lib"; "good.jsx"]);
            ("bad", leaf "bad" ["p"; "lib"; "bad.jsx"])]);
   ("q", mkModule "q" ["q"] true [("util", leaf "util" ["q"; "lib"; "util.jsx"])]);
   ("m", leaf "m" ["m.jsx"])].

Definition st0 : St := mkSt [] [] [] [].

(** A file system: the package [pkg] under [ext/core], with metadata next
    to [lib], a nested folder [sub] that has a [lib] of its own, an alias
    [far.jsx] to a folder inside [lib], a [test] folder, and at top level an
    alias [lnk.jsx] to the folder [shared/far]. *)
Definition sample_fs : node :=
  NDir
    [("ext",
      NDir
        [("core",
          NDir
            [("pkg",
              NDir
                [("package.jsx", NFile);
                 ("lib",
                  NDir
                    [("index.jsx", NFile);
                     ("sub", NDir [("lib", NDir [("a.jsx", NFile)]);
                                   ("meta.jsx", NFile)]);
                     ("far.jsx", NAlias ["shared"; "far"]);
                     ("notes.txt", NFile)]);
                 ("test", NDir [("sample.specs", NFile); ("notes.txt", NFile)])]);
             ("lnk.jsx", NAlias ["shared"; "far"])])]);
     ("shared", NDir [("far", NDir [("lib", NDir [("index.jsx", NFile)])])])].

(** ** The other methods of [Module] *)

(** [o.values()] on an object whose values are Module objects, such as
    [self.submodules]. A child stored under [values], [keys] or
    [hasOwnProperty] shadows the method of that name, and calling a Module
    object is a [TypeError]: [o.values()] itself, [this.keys()] inside it,
    or [this.hasOwnProperty(key)] in the loop of [keys], which runs at
    least once. Otherwise [keys()] keeps every own key (no value is a
    function) and the [map] reads [o[key]] for each. *)
Definition own_values {A : Type} (o : list (string * A)) : result (list A) :=
  if hasOwnProperty o "values" || hasOwnProperty o "keys"
     || hasOwnProperty o "hasOwnProperty"
  then Throw TypeError
  else Return (flat_map (fun key => match get_own key o with
                                    | Some v => [v]
                                    | None => []
                                    end)
                        (map fst o)).

(** [this.get_subpackages]. *)
Definition get_subpackages (self : Module_) : result (list Module_) :=
  rbind (own_values (submodules self))
        (fun values_ =>
           Return (filter (fun submodule =>
                             packaged submodule
                             && negb (String.eqb (id submodule) "tests"))
                          values_)).

(** [this.has_subpackages]: [!!self.get_subpackages().length]. *)
Definition has_subpackages (self : Module_) : result bool :=
  rbind (get_subpackages self)
        (fun subpackages => Return (negb (Nat.eqb (List.length subpackages) 0))).


(** The shape the constructor gives a Module tree: no two children under
    one key, no children in a module that is not packaged, and every child
    stored under its own id, all the way down. *)
Fixpoint well_formed (m : Module_) : Prop :=
  match m with
  | mkModule _ _ p subs =>
      NoDup (map fst subs)
      /\ (p = false -> subs = [])
      /\ (fix all (l : list (string * Module_)) : Prop :=
            match l with
            | [] => True
            | (k, c) :: l' => id c = k /\ well_formed c /\ all l'
            end) subs
  end.

(** ** The patches on [Object] *)

(** [v instanceof Function]. *)
Definition is_function (v : value) : bool :=
  match v with VFun _ => true | _ => false end.

(** [Object.prototype.keys], on a receiver whose [this.hasOwnProperty] is
    the built-in (no own property hides it). *)
Definition keys (this : obj) : list string :=
  filter (fun key =>
            hasOwnProperty this key && negb (is_function (get_prop this key)))
         (for_in_names this).

(** [Object.prototype.values]: [this.keys().map(function (key) { return
    self[key] })], on a receiver whose [this.keys] is the function above. *)
Definition values (this : obj) : list value :=
  map (fun key => get_prop this key) (keys this).

(** [Object.prototype.merge] (and its alias [extend]) with an object as
    argument; an object is never falsy, so the early [return] is not taken.
    The result is [this] after the loop. *)
Definition merge (this obj_ : obj) : obj :=
  fold_left (fun merged_obj name_ => set_prop name_ (get_prop obj_ name_) merged_obj)
            (for_in_names obj_) this.

(** [Object.prototype.clone] on a plain object (no array, no string)
    whose [this.constructor] is the built-in [Object]:
    [new this.constructor().merge(this)]. *)
Definition clone (this : obj) : obj := merge [] this.

(** ** The patches on [String] *)

(** [Array.prototype.join] on an array of strings. *)
Definition join (sep : string) (this : list string) : string :=
  String.concat sep this.

(** [String.prototype.startswith]. *)
Definition startswith (this substring_ : string) : bool :=
  if Nat.eqb (String.length this) 0 then false
  else Z.eqb (indexOf this substring_) 0.

(** [String.prototype.contains]. *)
Definition contains (this substring_ : string) : bool :=
  negb (Z.eqb (indexOf this substring_) (-1)).

(** [String.prototype.indexAfter]. *)
Definition indexAfter (this substring_ : string) : Z :=
  let index := indexOf this substring_ in
  if Z.eqb index (-1) then index
  else (index + Z.of_nat (String.length substring_))%Z.

(** [this.slice(0, -n)]. *)
Definition slice_off (n : nat) (this : string) : string :=
  substring 0 (String.length this - n) this.

(** [this.substr(1)]. *)
Definition substr_1 (this : string) : string :=
  match this with
  | EmptyString => EmptyString
  | String _ rest => rest
  end.

(** [String.prototype.rtrim] when [character] is given (a non-empty
    string): strip one character and go on as long as [endswith] says yes.
    Every round shortens the string, so its length plus one bounds the
    rounds. *)
Fixpoint rtrim_rounds (n : nat) (this character : string) : string :=
  match n with
  | O => this
  | S n' =>
      if endswith this character
      then rtrim_rounds n' (slice_off 1 this) character
      else this
  end.

Definition rtrim (this character : string) : string :=
  rtrim_rounds (S (String.length this)) this character.

(** [String.prototype.ltrim] when [character] is given: the test is
    [this.endswith(character)], the step [this.substr(1)]. *)
Fixpoint ltrim_rounds (n : nat) (this character : string) : string :=
  match n with
  | O => this
  | S n' =>
      if endswith this character
      then ltrim_rounds n' (substr_1 this) character
      else this
  end.

Definition ltrim (this character : string) : string :=
  ltrim_rounds (S (String.length this)) this character.

(** [String.prototype.trim] when [character] is given. *)
Definition trim (this character : string) : string :=
  rtrim (ltrim this character) character.

(** ** [File.prototype.component] *)

(** [component('extension')] of a file named [nm]. *)
Definition extension (nm : string) : string :=
  let name_ := split "." nm in
  if Nat.ltb 1 (List.length name_) then last name_ "" else "".

(** [component('basename')] of a file named [nm]. *)
Definition basename (nm : string) : string :=
  let extlen := String.length (extension nm) in
  if Nat.eqb extlen 0 then nm
  else rtrim (slice_off extlen nm) ".".

(** A string in which the character [c] does not occur. *)
Fixpoint lacks (c : ascii) (s : string) : bool :=
  match s with
  | EmptyString => true
  | String c' s' => negb (Ascii.eqb c' c) && lacks c s'
  end.

(** ** [Number.range] on integers

    A JavaScript number is a double. An integer is held exactly up to
    [2^53] in magnitude; beyond, a sum is rounded to 53 significant bits,
    to the nearest and on a tie to the even significand, and from
    [2^1024 - 2^970] on it is an infinity. *)

(** The double an integer rounds to; [None] is [Infinity] or
    [-Infinity]. *)
Definition double_of (x : Z) : option Z :=
  let a := Z.abs x in
  if Z.leb a (2 ^ 53) then Some x
  else
    let e := (Z.log2 a - 52)%Z in
    let q := Z.shiftr a e in
    let r := Z.land a (Z.ones e) in
    let half := Z.shiftl 1 (e - 1) in
    let q' :=
      if Z.ltb r half then q
      else if Z.ltb half r then (q + 1)%Z
      else if Z.even q then q else (q + 1)%Z in
    let y := Z.shiftl q' e in
    if Z.leb (2 ^ 1024) y then None else Some (Z.sgn x * y)%Z.

(** The loop [for (var i = from; Math.abs(i) < Math.abs(to); i = i + step)
    range.push(i)], for at most [n] tests of the condition; [None] when
    the loop is still running after them. On an infinite [i] the test
    fails, [to] being finite. *)
Fixpoint range_rounds (n : nat) (i to step : Z) : option (list Z) :=
  match n with
  | O => None
  | S n' =>
      if Z.ltb (Z.abs i) (Z.abs to) then
        match double_of (i + step) with
        | Some i' => option_map (cons i) (range_rounds n' i' to step)
        | None => Some [i]
        end
      else Some []
  end.

(** [Number.range] called with the integers [arguments], each of them a
    double, with [fuel] bounding the tests of the loop condition.
    [arguments[2] || 1] turns a missing or zero step into 1; with no
    argument both bounds are [undefined] and the test fails at once. *)
Definition Number_range (fuel : nat) (arguments : list Z) : option (list Z) :=
  let step :=
    match nth_error arguments 2 with
    | Some s => if Z.eqb s 0 then 1%Z else s
    | None => 1%Z
    end in
  match arguments with
  | [] => Some []
  | [to] => range_rounds fuel 0 to step
  | from :: to :: _ => range_rounds fuel from to step
  end.

(** A package with a nested folder, as the constructor builds it. *)
Definition sample_deep : Module_ :=
  mkModule "pkg" ["pkg"] true
    [("index", leaf "index" ["pkg"; "lib"; "index.jsx"]);
     ("sub", mkModule "sub" ["pkg"; "lib"; "sub"] true
               [("a", leaf "a" ["pkg"; "lib"; "sub"; "a.jsx"]);
                ("tests", mkModule "tests" ["pkg"; "lib"; "sub"; "tests"] true [])])].

(** ** base64 *)

(** [function alphabet(extra)]. *)
Definition alphabet (extra : string) : string :=
  "ABCDEFGHIJKLMNOPQRSTUVWXYZabcdefghijklmnopqrstuvwxyz0123456789"
  ++ extra ++ "=".

(** [s.charAt(i)]: a one-character string, empty past the end. *)
Definition charAt (i : Z) (s : string) : string :=
  match get (Z.to_nat i) s with
  | Some c => String c ""
  | None => ""
  end.

(** [str.charCodeAt(c)] of a character, and [String.fromCharCode(b)]. The
    strings of this development hold character codes below 256. *)
Definition charCode (c : ascii) : Z := Z.of_nat (nat_of_ascii c).
Definition fromCharCode (b : Z) : string :=
  String (ascii_of_nat (Z.to_nat b)) "".

(** One round of the [while] loop of the encoder: [b0] is the code at [c],
    [b1] and [b2] the next two, [None] for the [NaN] that [charCodeAt]
    returns past the end. All numbers stay below 2^24, so the 32-bit
    wrap-around of [<<] does not come into play. *)
Definition encode_group (chars : string) (b0 : Z) (b1 b2 : option Z) : string :=
  let or0 (b : option Z) := match b with Some v => v | None => 0%Z end in
  let buf := (Z.shiftl b0 16 + Z.shiftl (or0 b1) 8 + or0 b2)%Z in
  let i0 := Z.shiftr (Z.land buf (Z.shiftl 63 18)) 18 in
  let i1 := Z.shiftr (Z.land buf (Z.shiftl 63 12)) 12 in
  let i2 := match b1 with
            | None => 64%Z
            | Some _ => Z.shiftr (Z.land buf (Z.shiftl 63 6)) 6
            end in
  let i3 := match b2 with
            | None => 64%Z
            | Some _ => Z.land buf 63
            end in
  charAt i0 chars ++ charAt i1 chars ++ charAt i2 chars ++ charAt i3 chars.

(** The loop of the encoder over what is left of [str]. *)
Fixpoint encode_from (chars : string) (str : string) : string :=
  match str with
  | EmptyString => ""
  | String c0 EmptyString => encode_group chars (charCode c0) None None
  | String c0 (String c1 EmptyString) =>
      encode_group chars (charCode c0) (Some (charCode c1)) None
  | String c0 (String c1 (String c2 rest)) =>
      encode_group chars (charCode c0) (Some (charCode c1)) (Some (charCode c2))
      ++ encode_from chars rest
  end.

(** [function encoder(extra)]. *)
Definition encoder (extra : string) (str : string) : string :=
  encode_from (alphabet extra) str.

(** [chars.indexOf(str.charAt(c))]; past the end [charAt] is the empty
    string, found at 0. *)
Definition index_in (chars : string) (c : option ascii) : Z :=
  match c with
  | Some c => indexOf chars (String c "")
  | None => indexOf chars ""
  end.

(** One round of the [while] loop of the decoder. *)
Definition decode_group (chars : string) (c0 c1 c2 c3 : option ascii) : string :=
  let i0 := index_in chars c0 in
  let i1 := index_in chars c1 in
  let i2 := index_in chars c2 in
  let i3 := index_in chars c3 in
  let buf := (Z.shiftl i0 18 + Z.shiftl i1 12 + Z.shiftl (Z.land i2 63) 6
              + Z.land i3 63)%Z in
  let b0 := Z.shiftr (Z.land buf (Z.shiftl 255 16)) 16 in
  let b1 := if Z.eqb i2 64 then (-1)%Z
            else Z.shiftr (Z.land buf (Z.shiftl 255 8)) 8 in
  let b2 := if Z.eqb i3 64 then (-1)%Z else Z.land buf 255 in
  fromCharCode b0
  ++ (if Z.leb 0 b1 then fromCharCode b1 else "")
  ++ (if Z.leb 0 b2 then fromCharCode b2 else "").

(** The loop of the decoder over what is left of [str]. *)
Fixpoint decode_from (chars : string) (str : string) : string :=
  match str with
  | EmptyString => ""
  | String c0 EmptyString => decode_group chars (Some c0) None None None
  | String c0 (String c1 EmptyString) =>
      decode_group chars (Some c0) (Some c1) None None
  | String c0 (String c1 (String c2 EmptyString)) =>
      decode_group chars (Some c0) (Some c1) (Some c2) None
  | String c0 (String c1 (String c2 (String c3 rest))) =>
      decode_group chars (Some c0) (Some c1) (Some c2) (Some c3)
      ++ decode_from chars rest
  end.

(** [invalid_char.test(str)]: the expression is the class of the characters
    outside [chars] ([regexp_escape] puts a backslash before the [+] or the
    [-] of the alphabets in use, which leaves the class as it is). *)
Fixpoint has_invalid_char (chars : string) (str : string) : bool :=
  match str with
  | EmptyString => false
  | String c rest =>
      Z.eqb (indexOf chars (String c "")) (-1) || has_invalid_char chars rest
  end.

(** [new RegExp("/=[^=]/").test(str)]: the slashes are part of the
    pattern. *)
Fixpoint has_slash_eq_other_slash (str : string) : bool :=
  match str with
  | String a ((String b (String c (String d _))) as rest) =>
      (Ascii.eqb a "/" && Ascii.eqb b "=" && negb (Ascii.eqb c "=")
       && Ascii.eqb d "/")
      || has_slash_eq_other_slash rest
  | String _ rest => has_slash_eq_other_slash rest
  | EmptyString => false
  end.

(** [function decoder(extra)], for the alphabets in use, [+/] and [-_]. *)
Definition decoder (extra : string) (str : string) : result string :=
  let chars := alphabet extra in
  let invalid_strlen := negb (Nat.eqb (String.length str mod 4) 0) in
  let invalid_chars := has_invalid_char chars str in
  let invalid_equals :=
    contains str "/=/"
    && (has_slash_eq_other_slash str || contains str "/===/") in
  if invalid_strlen || invalid_chars || invalid_equals
  then Throw (Error "Invalid base64 data")
  else Return (decode_from chars str).

Definition encode64 : string -> string := encoder "+/".
Definition decode64 : string -> result string := decoder "+/".
Definition urlsafeEncode64 : string -> string := encoder "-_".
Definition urlsafeDecode64 : string -> result string := decoder "-_".

(** The shape of encoder output: once [=] appears, only [=] follows. *)
Fixpoint only_pad (s : string) : bool :=
  match s with
  | EmptyString => true
  | String c rest => Ascii.eqb c "=" && only_pad rest
  end.

Fixpoint pad_at_end (s : string) : bool :=
  match s with
  | EmptyString => true
  | String c rest => if Ascii.eqb c "=" then only_pad rest else pad_at_end rest
  end.

(** What the proofs need of an alphabet: 65 characters, each found at its
    own position, [=] the last of them. *)
Definition alphabet_ok (chars : string) : bool :=
  Nat.eqb (String.length chars) 65
  && forallb (fun i =>
                match get i chars with
                | Some c =>
                    Z.eqb (indexOf chars (String c "")) (Z.of_nat i)
                    && Bool.eqb (Ascii.eqb c "=") (Nat.eqb i 64)
                | None => false
                end) (seq 0 65).

(** A character of the encoder output: it is found at index [z] of the
    alphabet, and it is [=] only when [z] is 64. *)
Definition sits_at (chars : string) (k : ascii) (z : Z) : Prop :=
  indexOf chars (String k "") = z /\ Ascii.eqb k "=" = Z.eqb z 64.

(** * Properties *)

(** ** Association lists as objects *)

Section PropertyFacts.
Context {A : Type}.
Implicit Types (o : list (string * A)) (k : string) (v : A).

Lemma get_own_set_same o k v : get_own k (set_prop k v o) = Some v.
Proof.
  induction o as [|[k' v'] o IH]; simpl.
  - now rewrite String.eqb_refl.
  - destruct (String.eqb k' k) eqn:E; simpl.
    + now rewrite String.eqb_refl.
    + now rewrite E.
Qed.

Lemma get_own_set_other o k k' v :
  k' <> k -> get_own k' (set_prop k v o) = get_own k' o.
Proof.
  intros Hne. induction o as [|[k0 v0] o IH]; simpl.
  - destruct (String.eqb k k') eqn:E; [|reflexivity].
    apply String.eqb_eq in E. congruence.
  - destruct (String.eqb k0 k) eqn:E; simpl.
    + apply String.eqb_eq in E. subst k0.
      destruct (String.eqb k k') eqn:E'; [|reflexivity].
      apply String.eqb_eq in E'. congruence.
    + now rewrite IH.
Qed.

Lemma get_own_In o k v : get_own k o = Some v -> In k (map fst o).
Proof.
  induction o as [|[k' v'] o IH]; simpl; [discriminate|].
  destruct (String.eqb k' k) eqn:E.
  - apply String.eqb_eq in E. now left.
  - intros H. right. now apply IH.
Qed.

Lemma get_own_None o k : get_own k o = None <-> ~ In k (map fst o).
Proof.
  induction o as [|[k' v'] o IH]; simpl.
  - tauto.
  - destruct (String.eqb k' k) eqn:E.
    + apply String.eqb_eq in E. split; [discriminate|]. intros H. exfalso. auto.
    + apply String.eqb_neq in E. rewrite IH. tauto.
Qed.

(** The keys after [o[k] = v]: those of [o], and [k]. *)
Lemma keys_set_prop o k v k' :
  In k' (map fst (set_prop k v o)) <-> k' = k \/ In k' (map fst o).
Proof.
  induction o as [|[k0 v0] o IH]; simpl.
  - intuition.
  - destruct (String.eqb k0 k) eqn:E; simpl.
    + apply String.eqb_eq in E. subst k0. intuition.
    + rewrite IH. intuition.
Qed.
End PropertyFacts.

(** ** [split] *)

Lemma split_nonempty sep s : split sep s <> [].
Proof.
  destruct s as [|c s]; simpl; [discriminate|].
  destruct (Ascii.eqb c sep); [discriminate|].
  destruct (split sep s); discriminate.
Qed.

Lemma split_term s : is_term s = true -> split "/" s = [s].
Proof.
  induction s as [|c s IH]; simpl; [reflexivity|].
  intros H. apply andb_true_iff in H as [Hc Hs].
  apply negb_true_iff in Hc. rewrite Hc, (IH Hs). reflexivity.
Qed.

Lemma split_app sep a b :
  split sep (a ++ String sep b) = (split sep a ++ split sep b)%list.
Proof.
  induction a as [|c a IH]; simpl.
  - now rewrite Ascii.eqb_refl.
  - destruct (Ascii.eqb c sep); [now rewrite IH|].
    rewrite IH. destruct (split sep a) eqn:E; [|reflexivity].
    now apply split_nonempty in E.
Qed.

(** ** [for]-[in] and the copy loop of [extract] *)

Lemma for_in_names_spec (o : obj) (k : string) :
  In k (for_in_names o) <->
  In k (map fst o) \/ (In k (map fst Object_prototype) /\ get_own k o = None).
Proof.
  unfold for_in_names. rewrite in_app_iff, filter_In. unfold hasOwnProperty.
  destruct (get_own k o) eqn:E; simpl; intuition discriminate.
Qed.

Section CopyLoop.
Variable F : string -> value.

Lemma copy_untouched ns g k :
  ~ In k ns ->
  get_own k (fold_left (fun g k => set_prop k (F k) g) ns g) = get_own k g.
Proof.
  revert g. induction ns as [|a ns IH]; intros g Hn; simpl; [reflexivity|].
  rewrite IH by (intros H; apply Hn; now right).
  apply get_own_set_other. intros ->. apply Hn. now left.
Qed.

Lemma copy_assigned ns g k :
  In k ns ->
  get_own k (fold_left (fun g k => set_prop k (F k) g) ns g) = Some (F k).
Proof.
  revert g. induction ns as [|a ns IH]; intros g Hin; simpl; [contradiction|].
  destruct (in_dec string_dec k ns) as [Hk|Hk]; [now apply IH|].
  destruct Hin as [->|Hin]; [|contradiction].
  rewrite copy_untouched by assumption. apply get_own_set_same.
Qed.

Lemma copy_loop_global ns st :
  fold_left (fun st k => set_global (set_prop k (F k) (global st)) st) ns st =
  set_global (fold_left (fun g k => set_prop k (F k) g) ns (global st)) st.
Proof.
  revert st. induction ns as [|a ns IH]; intros st; simpl.
  - now destruct st.
  - rewrite IH. reflexivity.
Qed.
End CopyLoop.

(** ** The store of [exports] fields *)





(** ** Pushing on the log buffer, replaying it *)

Lemma push_all_log_buffer ms st :
  log_buffer (fold_left (fun s m => push_log m s) ms st) = (log_buffer st ++ ms)%list
  /\ syslog (fold_left (fun s m => push_log m s) ms st) = syslog st
  /\ global (fold_left (fun s m => push_log m s) ms st) = global st
  /\ exports_of (fold_left (fun s m => push_log m s) ms st) = exports_of st.
Proof.
  revert st. induction ms as [|m ms IH]; intros st; simpl.
  - now rewrite app_nil_r.
  - destruct (IH (push_log m st)) as (H1 & H2 & H3 & H4).
    rewrite H1, H2, H3, H4. simpl. now rewrite <- app_assoc.
Qed.

Lemma forEach_syslog l st :
  forEach l (fun message st => Return (syslog_log message st)) st =
  Return (mkSt (global st) (log_buffer st) (exports_of st) (syslog st ++ l)%list).
Proof.
  revert st. induction l as [|m l IH]; intros st; simpl.
  - rewrite app_nil_r. now destruct st.
  - rewrite IH. simpl. now rewrite <- app_assoc.
Qed.

(** ** [load], [require] *)

Section LoaderFacts.
Context {host : Host}.
Variable __modules__ : list (string * Module_).

(** [load] as the source writes it, with the property read spelled
    [get_own]. *)
Lemma load_eq r self :
  load r self =
  if packaged self then
    match get_own "index" (submodules self) with
    | Some c =>
        exports <- load (r ++ ["index"])%list c ;;
        modify (set_exports r exports) ;;
        ret exports
    | None => throw TypeError
    end
  else
    exports <- eval self (uri self) ;;
    modify (set_exports r exports) ;;
    ret exports.
Proof.
  destruct self as [i u p subs]; simpl. destruct p; [|reflexivity].
  induction subs as [|[k c] l IH]; simpl; [reflexivity|].
  destruct (String.eqb k "index"); [reflexivity | apply IH].
Qed.

(** On a leaf, [load] is one run of the body with its bookkeeping. *)
Lemma load_leaf r self st :
  packaged self = false -> load r self st = evaluate r self st.
Proof.
  intros Hp. rewrite load_eq, Hp.
  unfold eval, evaluate, bind, modify, ret.
  destruct (thrown (evalFile (uri self) (id self, uri self) [] st)) as [error|];
    [|reflexivity].
  destruct (failure_message _ error _) as [[m|e] s]; reflexivity.
Qed.

(** A leaf whose body does not throw: the exports it left are returned and
    stored, and the loader adds nothing else to the state. *)
Lemma load_leaf_returns r self st :
  packaged self = false ->
  thrown (evalFile (uri self) (id self, uri self) [] st) = None ->
  load r self st =
  (Return (exports_after (evalFile (uri self) (id self, uri self) [] st)),
   set_exports r (exports_after (evalFile (uri self) (id self, uri self) [] st))
     (state_after (evalFile (uri self) (id self, uri self) [] st))).
Proof.
  intros Hp Ht. rewrite (load_leaf _ _ _ Hp). unfold evaluate. now rewrite Ht.
Qed.


Lemma locate_unhidden module_id r self :
  locate __modules__ module_id = Some (r, self) ->
  hasOwnProperty __modules__ "hasOwnProperty" = false.
Proof.
  unfold locate.
  destruct (hasOwnProperty __modules__ "hasOwnProperty");
    [discriminate | reflexivity].
Qed.

Lemma require_locate module_id r self :
  locate __modules__ module_id = Some (r, self) ->
  require __modules__ module_id = load r self.
Proof.
  unfold locate, require.
  destruct (hasOwnProperty __modules__ "hasOwnProperty"); [discriminate|].
  destruct (get_own (hd "" (split "/" module_id)) __modules__) as [m|];
    [|discriminate].
  destruct (tl (split "/" module_id)) as [|t ts] eqn:Et.
  - intros H. injection H as <- <-. reflexivity.
  - destruct (get_submodule m (t :: ts)) as [[s|]|x] eqn:Eg; try discriminate.
    intros H. injection H as <- <-. reflexivity.
Qed.

Lemma require_term p m :
  hasOwnProperty __modules__ "hasOwnProperty" = false ->
  is_term p = true -> get_own p __modules__ = Some m ->
  require __modules__ p = load [p] m.
Proof.
  intros Hh Ht Hm. apply require_locate. unfold locate.
  rewrite Hh, (split_term _ Ht). simpl. now rewrite Hm.
Qed.


(** C1 (amended). [load] keeps no record of a completed load: on a leaf
    module every call is one more run of the body, from the state the
    previous call left, and returns the exports of that run unless the
    [catch] block itself throws; [n] calls of [require] on an identifier
    that resolves to a leaf module are [n] such runs, one per call, up to
    the first call that throws. *)
Theorem require_reloads_each_time module_id r self :
  locate __modules__ module_id = Some (r, self) ->
  packaged self = false ->
  (forall st, load r self st = evaluate r self st)
  /\ (forall st,
        thrown (evalFile (uri self) (id self, uri self) [] st) = None ->
        require __modules__ module_id st =
        (Return (exports_after (evalFile (uri self) (id self, uri self) [] st)),
         set_exports r
           (exports_after (evalFile (uri self) (id self, uri self) [] st))
           (state_after (evalFile (uri self) (id self, uri self) [] st))))
  /\ (forall n st,
        require_times __modules__ n module_id st = evaluations n r self st).
Proof.
  intros Hl Hp. split; [intros st; now apply load_leaf|]. split.
  - intros st Ht. rewrite (require_locate _ _ _ Hl). now apply load_leaf_returns.
  - induction n as [|n IH]; intros st; simpl.
    + reflexivity.
    + unfold bind at 1 3. rewrite (require_locate _ _ _ Hl), (load_leaf _ _ _ Hp).
      destruct (evaluate r self st) as [[e|x] st1]; [|reflexivity].
      unfold bind at 1 2. rewrite IH.
      destruct (evaluations n r self st1) as [[es|x] st2]; reflexivity.
Qed.

(** [get_submodule] itself throws nothing but the host's [TypeError]. *)
Lemma get_submodule_throws terms : forall self e,
  get_submodule self terms = Throw e -> e = TypeError.
Proof.
  induction terms as [|t terms IH]; intros self e; simpl; [discriminate|].
  destruct terms as [|t' terms]; [discriminate|].
  destruct (get_own t (submodules self)) as [s|]; [apply IH | congruence].
Qed.

(** C2, the branch the code misses. When the first term names a package
    but the remaining terms lead to no Module object, whichever of them is
    the missing one, [require] ends in the host's [TypeError] with the
    state untouched: no [Error] that names the identifier is built. *)
Theorem require_missing_submodule module_id m st :
  get_own (hd "" (split "/" module_id)) __modules__ = Some m ->
  locate __modules__ module_id = None ->
  require __modules__ module_id st = (Throw TypeError, st).
Proof.
  unfold locate, require. intros ->.
  destruct (hasOwnProperty __modules__ "hasOwnProperty"); [reflexivity|].
  intros Hnone.
  destruct (tl (split "/" module_id)) as [|t ts]; [discriminate|].
  unfold bind, lift.
  destruct (get_submodule m (t :: ts)) as [[s|]|e] eqn:Eg.
  - discriminate.
  - reflexivity.
  - now rewrite (get_submodule_throws _ _ _ Eg).
Qed.

(** The branch of [require] that does name the identifier: a first term
    that is no own property of [__modules__]. *)
Lemma require_no_package module_id st :
  hasOwnProperty __modules__ "hasOwnProperty" = false ->
  get_own (hd "" (split "/" module_id)) __modules__ = None ->
  require __modules__ module_id st =
  (Throw (Error ("No package named " ++ module_id)), st).
Proof. intros Hh H. unfold require. now rewrite Hh, H. Qed.

(** C3 (amended). A leaf module whose body throws still loads when the
    [catch] block gets through: when [module.id] reads as [v], [v]
    converts to [tag] and the thrown value to [text], [load] returns the
    exports as the body left them and the loader puts exactly one message
    on the log buffer, made of [tag] and [text]; [tag] is the module's id
    when the body left [module.id] alone. The loader hands nothing to
    [syslog.log] itself. A leaf module whose body does not throw, loaded
    from any state (so also next to a failed sibling), returns its exports
    and the loader logs nothing. *)
Theorem load_failure_contained r self st out error v tag s1 text s2 :
  packaged self = false ->
  evalFile (uri self) (id self, uri self) [] st = out ->
  thrown out = Some error ->
  id_after out = Return v ->
  concat_text v (state_after out) = (Return tag, s1) ->
  error_toString error s1 = (Return text, s2) ->
  load r self st =
    (Return (exports_after out),
     set_exports r (exports_after out)
       (push_log [VNum 3; VStr ("Could not fully load " ++ tag ++ nl ++ text)] s2))
  /\ log_buffer (snd (load r self st)) =
     (log_buffer s2
      ++ [[VNum 3; VStr ("Could not fully load " ++ tag ++ nl ++ text)]])%list
  /\ syslog (snd (load r self st)) = syslog s2
  /\ (v = VStr (id self) -> tag = id self /\ s1 = state_after out)
  /\ (forall r2 sibling s,
        packaged sibling = false ->
        thrown (evalFile (uri sibling) (id sibling, uri sibling) [] s) = None ->
        load r2 sibling s =
          (Return (exports_after (evalFile (uri sibling) (id sibling, uri sibling) [] s)),
           set_exports r2
             (exports_after (evalFile (uri sibling) (id sibling, uri sibling) [] s))
             (state_after (evalFile (uri sibling) (id sibling, uri sibling) [] s)))
        /\ log_buffer (snd (load r2 sibling s)) =
           log_buffer (state_after (evalFile (uri sibling) (id sibling, uri sibling) [] s))).
Proof.
  intros Hp He Ht Hv Hc Hx.
  assert (Hl : load r self st =
               (Return (exports_after out),
                set_exports r (exports_after out)
                  (push_log [VNum 3;
                             VStr ("Could not fully load " ++ tag ++ nl ++ text)] s2))).
  { rewrite (load_leaf _ _ _ Hp). unfold evaluate. rewrite He, Ht.
    unfold failure_message, bind, lift, ret. now rewrite Hv, Hc, Hx. }
  split; [exact Hl|]. split; [now rewrite Hl|]. split; [now rewrite Hl|].
  split.
  { intros ->. cbn in Hc. unfold ret in Hc. injection Hc as <- <-. now split. }
  intros r2 sibling s Hp2 Ht2.
  rewrite (load_leaf_returns _ _ _ Hp2 Ht2). now split.
Qed.


(** C9. A package without an [index] child does not load: [load] throws
    the host's [TypeError] to its caller and leaves the state as it was,
    so nothing is logged and no exports are stored; [require] of the
    package name throws the same. *)
Theorem load_package_without_index r self st :
  packaged self = true ->
  get_own "index" (submodules self) = None ->
  load r self st = (Throw TypeError, st)
  /\ (forall p, is_term p = true -> get_own p __modules__ = Some self ->
                require __modules__ p st = (Throw TypeError, st)).
Proof.
  intros Hp Hi.
  assert (Hl : forall r', load r' self st = (Throw TypeError, st)).
  { intros r'. rewrite load_eq, Hp, Hi. reflexivity. }
  split; [apply Hl|].
  intros p Ht Hm.
  destruct (hasOwnProperty __modules__ "hasOwnProperty") eqn:Hh.
  - unfold require. now rewrite Hh.
  - rewrite (require_term _ _ Hh Ht Hm). apply Hl.
Qed.
(** C10. [extract] assigns to [$.global] every name the [for]-[in] loop
    visits on the exports object: its own properties, and also the
    enumerable properties it inherits from [Object.prototype] ([merge],
    [clone], [keys], ...), each with the inherited value; no other global
    is touched. *)
Theorem extract_copies_inherited module_id st module st' :
  require __modules__ module_id st = (Return module, st') ->
  exists g,
    extract __modules__ module_id st = (Return tt, set_global g st')
    /\ (forall k v, get_own k module = Some v -> get_own k g = Some v)
    /\ (forall k f, get_own k Object_prototype = Some f ->
                    get_own k module = None -> get_own k g = Some f)
    /\ (forall k, get_own k module = None -> get_own k Object_prototype = None ->
                  get_own k g = get_own k (global st')).
Proof.
  intros Hr.
  exists (fold_left (fun g k => set_prop k (get_prop module k) g)
                    (for_in_names module) (global st')).
  split; [|split; [|split]].
  - unfold extract, bind, modify. rewrite Hr, copy_loop_global. reflexivity.
  - intros k v Hk. rewrite copy_assigned.
    + unfold get_prop. now rewrite Hk.
    + apply for_in_names_spec. left. exact (get_own_In _ _ _ Hk).
  - intros k f Hk Hn. rewrite copy_assigned.
    + unfold get_prop. now rewrite Hn, Hk.
    + apply for_in_names_spec. right. split; [exact (get_own_In _ _ _ Hk) | exact Hn].
  - intros k Hn Hp. apply copy_untouched. rewrite for_in_names_spec.
    apply get_own_None in Hn. apply get_own_None in Hp. tauto.
Qed.
End LoaderFacts.

(** ** The log buffer at the end of start-up *)

(** C8. Messages pushed on the log buffer queue up in the order of the
    pushes, and the replay at the end of start-up hands the whole buffer to
    [syslog.log], one call per message, in that order: from a state whose
    buffer and logger record are [log_buffer st] and [syslog st], pushing
    [ms] and replaying leaves the logger with [syslog st], then the
    buffered messages, then [ms]. *)
Theorem log_buffer_replayed_in_order (ms : list message) (st : St) :
  exists st',
    flush_log_buffer (fold_left (fun s m => push_log m s) ms st) = Return st'
    /\ syslog st' = (syslog st ++ log_buffer st ++ ms)%list
    /\ log_buffer st' = (log_buffer st ++ ms)%list
    /\ global st' = global st
    /\ exports_of st' = exports_of st.
Proof.
  destruct (push_all_log_buffer ms st) as (H1 & H2 & H3 & H4).
  eexists. split.
  - unfold flush_log_buffer. apply forEach_syslog.
  - simpl. now rewrite H1, H2, H3, H4.
Qed.


(** ** Suffixes *)

Lemma substring_all s : substring 0 (String.length s) s = s.
Proof. induction s as [|c s IH]; simpl; [reflexivity | now rewrite IH]. Qed.

Lemma substring_cut s n :
  n <= String.length s ->
  s = substring 0 n s ++ substring n (String.length s - n) s.
Proof.
  revert n. induction s as [|c s IH]; intros [|n] Hn; simpl in *;
    try reflexivity; try lia.
  - now rewrite substring_all.
  - rewrite <- IH by lia. reflexivity.
Qed.

Lemma substring_app_right a b :
  substring (String.length a) (String.length b) (a ++ b) = b.
Proof.
  induction a as [|c a IH]; simpl; [apply substring_all | exact IH].
Qed.

Lemma length_app a b :
  String.length (a ++ b) = String.length a + String.length b.
Proof. induction a as [|c a IH]; simpl; [reflexivity | now rewrite IH]. Qed.

(** The glob mask accepts exactly the names [stem ++ suffix]. *)
Lemma glob_star_spec suffix nm :
  glob_star suffix nm = true <-> exists stem, nm = stem ++ suffix.
Proof.
  unfold glob_star. rewrite andb_true_iff, Nat.leb_le, String.eqb_eq. split.
  - intros [Hle Hsub].
    exists (substring 0 (String.length nm - String.length suffix) nm).
    rewrite <- Hsub at 2.
    rewrite (substring_cut nm (String.length nm - String.length suffix)) at 1 by lia.
    repeat f_equal. lia.
  - intros [stem ->]. rewrite length_app. split; [lia|].
    replace (String.length stem + String.length suffix - String.length suffix)
      with (String.length stem) by lia.
    apply substring_app_right.
Qed.

(** [endswith] says yes only on names that end with the extension, once
    the name is at least as long as the extension. *)
Lemma endswith_suffix this substring_ :
  endswith this substring_ = true ->
  String.length substring_ <= String.length this ->
  exists stem, this = stem ++ substring_.
Proof.
  unfold endswith, indexOf. intros H Hlen.
  destruct (Nat.eqb (String.length this) 0); [discriminate|].
  apply Z.eqb_eq in H.
  destruct (index 0 substring_ this) as [n|] eqn:Ei; [|lia].
  apply index_correct1 in Ei.
  assert (Hn : n = String.length this - String.length substring_) by lia.
  subst n. apply glob_star_spec. unfold glob_star.
  apply andb_true_iff. split; [now apply Nat.leb_le | now apply String.eqb_eq].
Qed.

(** ** Discovery *)

Lemma node_nested_ind (P : node -> Prop) :
  P NFile ->
  (forall t, P (NAlias t)) ->
  (forall es, Forall (fun x => P (snd x)) es -> P (NDir es)) ->
  forall nd, P nd.
Proof.
  intros HF HA HD. fix IH 1. intros [| t | es]; [exact HF | apply HA | apply HD].
  induction es as [|[n c] es IHes]; constructor; [apply IH | exact IHes].
Qed.

(** The constructor, with [extract_submodules] as the source writes it. *)
Lemma Module_at_eq nm u nd is_package :
  Module_at nm u nd is_package =
  match nd with
  | NDir es =>
      rbind (extract_submodules u es is_package)
            (fun subs => Return (mkModule (id_of (mkFileObject nm u nd)) u true subs))
  | _ => Return (mkModule (id_of (mkFileObject nm u nd)) u false [])
  end.
Proof.
  destruct nd as [| t | es]; try reflexivity.
  cbn [Module_at].
  match goal with
  | |- context [if is_package then _ else ?ex u es []] =>
      assert (Hex : forall base les subs,
                 ex base les subs =
                 forEach (filter _is_valid_module (listing base les))
                   (fun submodule subs =>
                      rbind (new_Module submodule false)
                        (fun submodule =>
                           Return (set_prop (id submodule) submodule subs)))
                   subs)
  end.
  { intros base. induction les as [|[n c] rest IH]; intros subs; [reflexivity|].
    cbn [listing map filter].
    destruct (_is_valid_module (mkFileObject n (base ++ [n])%list c)) eqn:Ev.
    - cbn [forEach rbind]. unfold new_Module; cbn [name absoluteURI entry].
      destruct (Module_at n (base ++ [n])%list c false) as [sm|e]; cbn [rbind].
      + apply IH.
      + reflexivity.
    - apply IH. }
  unfold extract_submodules. destruct is_package.
  - induction es as [|[n c] rest IH]; [reflexivity|].
    cbn [lookup_entry]. destruct (String.eqb n "lib") eqn:En.
    + destruct c as [| t | les]; try reflexivity.
      cbn [getFiles]. now rewrite Hex.
    + apply IH.
  - cbn [getFiles]. now rewrite Hex.
Qed.

Lemma In_set_prop {A} (o : list (string * A)) k v k' v' :
  In (k', v') (set_prop k v o) -> (k', v') = (k, v) \/ In (k', v') o.
Proof.
  induction o as [|[k0 v0] o IH]; simpl.
  - intros [H|[]]. left. now symmetry.
  - destruct (String.eqb k0 k); simpl.
    + intros [H|H]; [left; now symmetry | right; now right].
    + intros [H|H]; [right; now left|]. destruct (IH H); auto.
Qed.

(** What the [forEach] of [extract_submodules] builds when no construction
    throws: a child under the id of every listed object, and no binding
    that is neither old nor built from a listed object. *)
Lemma forEach_submodules (files : list FileObject) :
  (forall f, In f files ->
     exists m, new_Module f false = Return m /\ id m = id_of f) ->
  forall subs,
  exists subs',
    forEach files
      (fun submodule subs =>
         rbind (new_Module submodule false)
           (fun submodule => Return (set_prop (id submodule) submodule subs)))
      subs = Return subs'
    /\ (forall k, In k (map fst subs') <->
                  In k (map fst subs) \/ exists f, In f files /\ id_of f = k)
    /\ (forall k c, In (k, c) subs' ->
                    In (k, c) subs \/
                    exists f, In f files /\ new_Module f false = Return c /\ k = id_of f).
Proof.
  induction files as [|f files IH]; intros Hall subs; cbn [forEach].
  - exists subs. split; [reflexivity|]. split.
    + intros k. split; [auto|]. intros [H|(f & [] & _)]. exact H.
    + auto.
  - destruct (Hall f (or_introl eq_refl)) as (m & Hm & Hid).
    rewrite Hm. cbn [rbind].
    destruct (IH (fun g Hg => Hall g (or_intror Hg)) (set_prop (id m) m subs))
      as (subs' & Hrun & Hkeys & Hbind).
    exists subs'. split; [exact Hrun|]. split.
    + intros k. rewrite Hkeys, keys_set_prop, Hid. split.
      * intros [[->|H]|(g & Hg & Hk)]; eauto.
        -- right. exists f. split; [now left | reflexivity].
        -- right. exists g. split; [now right | exact Hk].
      * intros [H|(g & [->|Hg] & Hk)]; eauto.
    + intros k c Hin. destruct (Hbind k c Hin) as [H|(g & Hg & Hc & Hk)].
      * apply In_set_prop in H. destruct H as [H|H]; [|now left].
        injection H as -> ->. right. exists f. split; [now left|]. now split.
      * right. exists g. split; [now right|]. now split.
Qed.

(** [new Module(submodule)] never throws, and classifies by the kind of the
    entry itself. *)
Lemma Module_at_nested nd : forall nm u,
  exists m, Module_at nm u nd false = Return m
            /\ id m = id_of (mkFileObject nm u nd)
            /\ uri m = u
            /\ packaged m = is_Folder (mkFileObject nm u nd).
Proof.
  induction nd as [| t | es IH] using node_nested_ind; intros nm u;
    try solve [eexists; rewrite Module_at_eq; repeat split].
  rewrite Module_at_eq. unfold extract_submodules. cbn [getFiles].
  destruct (forEach_submodules (filter _is_valid_module (listing u es))) with (subs := @nil (string * Module_))
    as (subs' & Hrun & _).
  - intros f Hf. apply filter_In in Hf as [Hf _]. unfold listing in Hf.
    apply in_map_iff in Hf as ([n c] & <- & Hin).
    rewrite Forall_forall in IH. destruct (IH _ Hin n (u ++ [n])%list) as (m & Hm & Hid & _).
    exists m. split; [exact Hm | exact Hid].
  - rewrite Hrun. eexists. cbn [rbind]. repeat split.
Qed.

Lemma new_Module_nested f :
  exists m, new_Module f false = Return m
            /\ id m = id_of f /\ uri m = absoluteURI f /\ packaged m = is_Folder f.
Proof.
  destruct f as [n u nd]. exact (Module_at_nested nd n u).
Qed.

Lemma extract_children base les :
  exists subs,
    forEach (filter _is_valid_module (listing base les))
      (fun submodule subs =>
         rbind (new_Module submodule false)
           (fun submodule => Return (set_prop (id submodule) submodule subs)))
      [] = Return subs
    /\ forall nm u, children_from (mkModule nm u true subs) (listing base les).
Proof.
  destruct (forEach_submodules (filter _is_valid_module (listing base les)))
    with (subs := @nil (string * Module_)) as (subs & Hrun & Hkeys & Hbind).
  { intros f _. destruct (new_Module_nested f) as (m & Hm & Hid & _). eauto. }
  exists subs. split; [exact Hrun|]. intros nm u. split; cbn [submodules].
  - intros k. rewrite Hkeys. split.
    + intros [[]|(f & Hf & Hk)]. apply filter_In in Hf as [Hf Hv]. eauto.
    + intros (f & Hf & Hv & Hk). right. exists f. split; [|exact Hk].
      apply filter_In. now split.
  - intros k c Hin. destruct (Hbind k c Hin) as [[]|(f & Hf & Hc & Hk)].
    apply filter_In in Hf as [Hf Hv].
    destruct (new_Module_nested f) as (m & Hm & Hid & Huri & Hpk).
    rewrite Hm in Hc. injection Hc as ->.
    exists f. repeat split; congruence.
Qed.

(** C5 (amended). A directory built with [is_package] set (the top-level
    packages of [load_modules]) has its children discovered among the
    entries of its [lib] subdirectory, and construction fails when there is
    no such directory; a directory built without it (every nested
    directory) has them discovered among its own entries. In both cases
    the ids of the children are the ids of the entries the filter accepts
    and every child is built from such an entry, and only a directory or
    a file that [endswith] takes to end with [.jsx] is accepted: a file
    whose name has at least four characters only if its name ends with
    [.jsx]. *)
Theorem discovery_scans_lib_only_at_top_level nm u es :
  match lookup_entry "lib" es with
  | Some (NDir les) =>
      exists m, Module_at nm u (NDir es) true = Return m
                /\ children_from m (listing (u ++ ["lib"])%list les)
  | _ => Module_at nm u (NDir es) true = Throw TypeError
  end
  /\ (exists m, Module_at nm u (NDir es) false = Return m
                /\ children_from m (listing u es))
  /\ (forall f, _is_valid_module f = true ->
                is_Folder f = true
                \/ (is_Folder f = false
                    /\ endswith (name f) ".jsx" = true
                    /\ (4 <= String.length (name f) ->
                        exists stem, name f = stem ++ ".jsx"))).
Proof.
  split; [|split].
  - rewrite Module_at_eq. unfold extract_submodules.
    destruct (lookup_entry "lib" es) as [[| t | les]|]; try reflexivity.
    cbn [getFiles].
    destruct (extract_children (u ++ ["lib"])%list les) as (subs & Hrun & Hch).
    rewrite Hrun. cbn [rbind]. eexists. split; [reflexivity | apply Hch].
  - rewrite Module_at_eq. unfold extract_submodules. cbn [getFiles].
    destruct (extract_children u es) as (subs & Hrun & Hch).
    rewrite Hrun. cbn [rbind]. eexists. split; [reflexivity | apply Hch].
  - intros f Hv. unfold _is_valid_module in Hv.
    destruct (is_Folder f); [now left | right].
    cbn [orb] in Hv. split; [reflexivity|]. split; [exact Hv|].
    intros Hlen. apply endswith_suffix; [exact Hv | exact Hlen].
Qed.

(** C7. [get_tests] returns the entries of the folder [test] under the
    module's own location whose names match [*.specs], each listed entry
    with such a name and no other; when that folder does not exist it
    returns the empty array. *)
Theorem get_tests_specs_only fs self :
  match fs_find fs (uri self ++ ["test"])%list with
  | Some (NDir es) =>
      forall f, In f (get_tests fs self) <->
                In f (listing (uri self ++ ["test"])%list es)
                /\ exists stem, name f = stem ++ ".specs"
  | _ => get_tests fs self = []
  end.
Proof.
  unfold get_tests, at_.
  destruct (fs_find fs (uri self ++ ["test"])%list) as [[| t | es]|];
    try reflexivity.
  cbn [getFiles]. intros f. rewrite filter_In, glob_star_spec. reflexivity.
Qed.

(** ** The claims on the sample data *)

(** C1 as stated fails: with the counting body, two calls of
    [require("m")] return different exports, and the body has run twice. *)
Lemma require_twice_runs_body_twice :
  exists e1 st1 e2 st2,
    require (host := sample_host) sample_modules "m" st0 = (Return e1, st1)
    /\ require (host := sample_host) sample_modules "m" st1 = (Return e2, st2)
    /\ e1 <> e2
    /\ counter_of (global st1) = 1%Z
    /\ counter_of (global st2) = 2%Z.
Proof.
  do 4 eexists. split; [reflexivity|]. split; [reflexivity|].
  split; [discriminate|]. split; reflexivity.
Qed.

Lemma require_reloads_each_time_witness :
  fst (require_times (host := sample_host) sample_modules 2 "m" st0) =
  Return [[("n", VNum 1)]; [("n", VNum 2)]].
Proof.
  destruct (require_reloads_each_time (host := sample_host) sample_modules
              "m" ["m"] (leaf "m" ["m.jsx"]) eq_refl eq_refl) as (_ & _ & H).
  rewrite H. reflexivity.
Defined.

Lemma require_missing_submodule_witness :
  require (host := sample_host) sample_modules "p/q" st0 = (Throw TypeError, st0)
  /\ require (host := sample_host) sample_modules "zz/q" st0 =
     (Throw (Error "No package named zz/q"), st0).
Proof.
  split; [|reflexivity].
  exact (require_missing_submodule (host := sample_host) sample_modules
           "p/q" _ st0 eq_refl eq_refl).
Defined.

Lemma load_failure_contained_witness :
  log_buffer (snd (load (host := sample_host) ["p"; "bad"]
                        (leaf "bad" ["p"; "lib"; "bad.jsx"]) st0)) =
  [[VNum 3; VStr ("Could not fully load bad" ++ nl ++ "boom")]].
Proof.
  destruct (load_failure_contained (host := sample_host) ["p"; "bad"]
              (leaf "bad" ["p"; "lib"; "bad.jsx"]) st0 _ (HostError "boom")
              (VStr "bad") "bad" st0 "boom" st0
              eq_refl eq_refl eq_refl eq_refl eq_refl eq_refl) as (_ & H & _).
  rewrite H. reflexivity.
Defined.

(** C3 as stated fails. The body of [rogue.jsx] assigns to [module.id]
    before it throws: the one message the loader logs is tagged [other],
    not with the id of the module. The body of [mute.jsx] throws an object
    whose [toString] throws: the [catch] block throws in turn, so [load]
    returns no exports and nothing is logged, though the body has run. *)
Lemma failure_message_depends_on_the_body :
  (exists st1,
     load (host := sample_host) ["rogue"] (leaf "rogue" ["rogue.jsx"]) st0 =
       (Return [], st1)
     /\ log_buffer st1 =
        [[VNum 3; VStr ("Could not fully load other" ++ nl ++ "boom")]]
     /\ id (leaf "rogue" ["rogue.jsx"]) <> "other")
  /\ (exists st1,
        load (host := sample_host) ["mute"] (leaf "mute" ["mute.jsx"]) st0 =
          (Throw (HostError "toString"), st1)
        /\ log_buffer st1 = []
        /\ counter_of (global st1) = 1%Z).
Proof.
  split; eexists; (split; [reflexivity|]); split;
    try reflexivity; discriminate.
Qed.

(** The isolation scenario of the specification: [good] next to [bad]. *)
Example faulty_module_isolation :
  exists bad st1 good st2,
    require (host := sample_host) sample_modules "p/bad" st0 = (Return bad, st1)
    /\ require (host := sample_host) sample_modules "p/good" st1 = (Return good, st2)
    /\ bad = []
    /\ get_prop good "ok" = VBool true
    /\ log_buffer st2 = [[VNum 3; VStr ("Could not fully load bad" ++ nl ++ "boom")]].
Proof.
  do 4 eexists. repeat split.
Qed.



Lemma load_package_without_index_witness :
  require (host := sample_host) sample_modules "q" st0 = (Throw TypeError, st0).
Proof.
  destruct (load_package_without_index (host := sample_host) sample_modules
              ["q"]
              (mkModule "q" ["q"] true [("util", leaf "util" ["q"; "lib"; "util.jsx"])])
              st0 eq_refl eq_refl) as [_ H].
  exact (H "q" eq_refl eq_refl).
Defined.

Lemma extract_copies_inherited_witness :
  exists g,
    fst (extract (host := sample_host) sample_modules "p/good" st0) = Return tt
    /\ global (snd (extract (host := sample_host) sample_modules "p/good" st0)) = g
    /\ get_own "ok" g = Some (VBool true)
    /\ get_own "merge" g = Some (VFun "merge")
    /\ get_own "keys" g = Some (VFun "keys").
Proof.
  destruct (extract_copies_inherited (host := sample_host) sample_modules
              "p/good" st0 [("ok", VBool true)]
              (mkSt [] [] [(["p"; "good"], [("ok", VBool true)])] [])
              eq_refl) as (g & He & Hown & Hinh & _).
  exists g. rewrite He. split; [reflexivity|]. split; [reflexivity|].
  split; [apply Hown; reflexivity|]. split; apply Hinh; reflexivity.
Defined.

(** C5 as stated fails: the nested directory [sub] has a [lib] of its own
    that holds [a.jsx], yet its children are its own entries, [lib] and
    [meta]. *)
Lemma nested_directory_scanned_itself :
  exists pkg far sub,
    load_modules sample_fs ["ext"] [PFString ["core"]] [] =
      Return [("pkg", pkg); ("far", far)]
    /\ get_own "sub" (submodules pkg) = Some sub
    /\ packaged sub = true
    /\ fs_find sample_fs (uri sub ++ ["lib"]) = Some (NDir [("a.jsx", NFile)])
    /\ map fst (submodules sub) = ["lib"; "meta"]
    /\ map fst (submodules sub) <> ["a"].
Proof.
  do 3 eexists. split; [reflexivity|]. split; [reflexivity|].
  split; [reflexivity|]. split; [reflexivity|]. split; [reflexivity|discriminate].
Qed.

(** C6, the scan that does not resolve. Inside [lib] the alias [far.jsx],
    which points to the folder [shared/far], becomes a leaf module located
    at the alias; at top level the alias [lnk.jsx] to the same folder is
    resolved and becomes the package [far]. *)
Theorem alias_in_lib_not_resolved :
  exists pkg far leaf_far,
    load_modules sample_fs ["ext"] [PFString ["core"]] [] =
      Return [("pkg", pkg); ("far", far)]
    /\ get_own "far" (submodules pkg) = Some leaf_far
    /\ fs_find sample_fs (uri leaf_far) = Some (NAlias ["shared"; "far"])
    /\ packaged leaf_far = false
    /\ submodules leaf_far = []
    /\ uri far = ["shared"; "far"]
    /\ packaged far = true
    /\ map fst (submodules far) = ["index"].
Proof.
  do 3 eexists. repeat split.
Qed.

(** The test-discovery scenario of the specification. *)
Example get_tests_sample :
  map name (get_tests sample_fs (mkModule "pkg" ["ext"; "core"; "pkg"] true [])) =
  ["sample.specs"].
Proof. reflexivity. Qed.

(** * Beyond the claims: the rest of the module system *)

(** ** The shape of constructed Module trees *)


Lemma well_formed_eq m :
  well_formed m <->
  NoDup (map fst (submodules m))
  /\ (packaged m = false -> submodules m = [])
  /\ Forall (fun kc => id (snd kc) = fst kc /\ well_formed (snd kc)) (submodules m).
Proof.
  destruct m as [i u p subs]; cbn [well_formed submodules packaged].
  assert (Hall : forall l,
             (fix all (l : list (string * Module_)) : Prop :=
                match l with
                | [] => True
                | (k, c) :: l' => id c = k /\ well_formed c /\ all l'
                end) l <->
             Forall (fun kc => id (snd kc) = fst kc /\ well_formed (snd kc)) l).
  { induction l as [|[k c] l IH].
    - split; [constructor | trivial].
    - rewrite IH. split.
      + intros (H1 & H2 & H3). constructor; [now split | exact H3].
      + intros H. inversion H as [|? ? [H1 H2] H3]; subst. auto. }
  rewrite Hall. reflexivity.
Qed.

Lemma NoDup_set_prop {A} (o : list (string * A)) k v :
  NoDup (map fst o) -> NoDup (map fst (set_prop k v o)).
Proof.
  induction o as [|[k0 v0] o IH]; simpl; intros Hnd.
  - constructor; [tauto | constructor].
  - inversion Hnd as [|? ? Hnotin Hnd']; subst.
    destruct (String.eqb k0 k) eqn:E; simpl.
    + apply String.eqb_eq in E. subst k0. now constructor.
    + constructor; [|now apply IH].
      rewrite keys_set_prop. apply String.eqb_neq in E. intros [->|H]; tauto.
Qed.

Lemma Forall_set_prop {A} (Q : string * A -> Prop) (o : list (string * A)) k v :
  Forall Q o -> Q (k, v) -> Forall Q (set_prop k v o).
Proof.
  intros Ho Hkv. rewrite Forall_forall in *. intros [k' v'] Hin.
  apply In_set_prop in Hin. destruct Hin as [->|Hin]; auto.
Qed.

(** A [forEach] whose callback stores a well-formed module under the
    module's id keeps the map well-keyed and drops none of its keys. *)
Lemma forEach_registers {X}
  (cb : X -> list (string * Module_) -> result (list (string * Module_)))
  (xs : list X) :
  (forall x, In x xs -> forall acc acc', cb x acc = Return acc' ->
     exists m, well_formed m /\ acc' = set_prop (id m) m acc) ->
  forall acc acc',
    forEach xs cb acc = Return acc' ->
    NoDup (map fst acc) ->
    Forall (fun kc => id (snd kc) = fst kc /\ well_formed (snd kc)) acc ->
    NoDup (map fst acc')
    /\ Forall (fun kc => id (snd kc) = fst kc /\ well_formed (snd kc)) acc'
    /\ (forall k, In k (map fst acc) -> In k (map fst acc')).
Proof.
  induction xs as [|x xs IH]; intros Hcb acc acc' Hrun Hnd Hall;
    cbn [forEach] in Hrun.
  - injection Hrun as <-. auto.
  - destruct (cb x acc) as [acc1|e] eqn:Ecb; [|discriminate]. cbn [rbind] in Hrun.
    destruct (Hcb x (or_introl eq_refl) _ _ Ecb) as (m & Hwf & ->).
    destruct (IH (fun y Hy => Hcb y (or_intror Hy)) _ _ Hrun) as (H1 & H2 & H3).
    + now apply NoDup_set_prop.
    + apply Forall_set_prop; [exact Hall | now split].
    + split; [exact H1|]. split; [exact H2|].
      intros k Hk. apply H3. apply keys_set_prop. now right.
Qed.

Lemma lookup_entry_In seg es c : lookup_entry seg es = Some c -> In (seg, c) es.
Proof.
  induction es as [|[n c'] es IH]; simpl; [discriminate|].
  destruct (String.eqb n seg) eqn:E.
  - apply String.eqb_eq in E. intros H. injection H as <-. subst. now left.
  - intros H. right. now apply IH.
Qed.

Lemma Module_at_well_formed nd : forall nm u is_package m,
  Module_at nm u nd is_package = Return m -> well_formed m.
Proof.
  induction nd as [| t | es IH] using node_nested_ind; intros nm u is_package m;
    rewrite Module_at_eq;
    try (intros H; injection H as <-; cbn; repeat split; constructor).
  assert (Hsub : forall subs,
             forEach (filter _is_valid_module (listing u es))
               (fun submodule subs =>
                  rbind (new_Module submodule false)
                    (fun submodule => Return (set_prop (id submodule) submodule subs)))
               [] = Return subs ->
             NoDup (map fst subs)
             /\ Forall (fun kc => id (snd kc) = fst kc /\ well_formed (snd kc)) subs).
  { intros subs Hrun.
    eapply forEach_registers in Hrun.
    - destruct Hrun as (H1 & H2 & _). now split.
    - intros x Hx acc acc' Hcb. cbn beta in Hcb.
      destruct (new_Module x false) as [m0|e] eqn:Em; [|discriminate].
      injection Hcb as <-. exists m0. split; [|reflexivity].
      apply filter_In in Hx as [Hx _]. unfold listing in Hx.
      apply in_map_iff in Hx as ([n c] & <- & Hin).
      rewrite Forall_forall in IH. exact (IH _ Hin _ _ _ _ Em).
    - constructor.
    - constructor. }
  unfold extract_submodules. destruct is_package.
  - destruct (lookup_entry "lib" es) as [[| t | les]|] eqn:El;
      cbn [getFiles rbind]; try discriminate.
    match goal with
    | |- rbind ?t _ = _ -> _ => destruct t as [subs|e] eqn:Erun
    end; cbn [rbind]; [|discriminate].
    intros H. injection H as <-.
    apply lookup_entry_In in El. rewrite Forall_forall in IH.
    assert (Hlib : well_formed (mkModule "lib" (u ++ ["lib"])%list true subs)).
    { apply (IH _ El "lib" (u ++ ["lib"])%list false). cbn [snd].
      rewrite Module_at_eq. unfold extract_submodules. cbn [getFiles].
      rewrite Erun. reflexivity. }
    apply well_formed_eq in Hlib. apply well_formed_eq. cbn in *.
    destruct Hlib as (H1 & _ & H3). repeat split; [exact H1 | discriminate | exact H3].
  - cbn [getFiles].
    match goal with
    | |- rbind ?t _ = _ -> _ => destruct t as [subs|e] eqn:Erun
    end; cbn [rbind]; [|discriminate].
    intros H. injection H as <-.
    destruct (Hsub _ eq_refl) as [H1 H2].
    apply well_formed_eq. cbn. repeat split; [exact H1 | discriminate | exact H2].
Qed.

(** X1. Whatever the constructor [Module] builds is well formed: in every
    module of the tree the children have distinct keys and sit under their
    own ids, and a module that is not packaged has no children. And
    [load_modules] keeps [__modules__] in that shape: distinct ids, every
    module under its own id and well formed, and no id registered before
    the call is lost (its module may be replaced). *)
Theorem constructed_modules_well_formed :
  (forall f is_package m, new_Module f is_package = Return m -> well_formed m)
  /\ (forall fs_root Folder_extendables packagefolders __modules__ registry,
        load_modules fs_root Folder_extendables packagefolders __modules__ =
          Return registry ->
        NoDup (map fst __modules__) ->
        Forall (fun kc => id (snd kc) = fst kc /\ well_formed (snd kc)) __modules__ ->
        NoDup (map fst registry)
        /\ Forall (fun kc => id (snd kc) = fst kc /\ well_formed (snd kc)) registry
        /\ (forall k, In k (map fst __modules__) -> In k (map fst registry))).
Proof.
  split.
  { intros f is_package m. apply Module_at_well_formed. }
  intros fs_root ext packagefolders. unfold load_modules.
  induction packagefolders as [|pf pfs IH]; intros ms registry Hrun Hnd Hall;
    cbn [forEach] in Hrun.
  - injection Hrun as <-. auto.
  - match type of Hrun with
    | rbind ?t _ = _ => destruct t as [ms1|e] eqn:Epf
    end; cbn [rbind] in Hrun; [|discriminate].
    match type of Epf with
    | match ?g with _ => _ end = _ => destruct g as [packages|] eqn:Eg
    end; [|discriminate].
    eapply forEach_registers in Epf; [| | exact Hnd | exact Hall].
    + destruct Epf as (H1 & H2 & H3).
      destruct (IH _ _ Hrun H1 H2) as (H4 & H5 & H6). auto.
    + intros x _ acc acc' Hcb. cbn beta in Hcb.
      destruct (if alias x then resolve fs_root x else Return x) as [f|e];
        cbn [rbind] in Hcb; [|discriminate].
      destruct (new_Module f true) as [m|e] eqn:Em; cbn [rbind] in Hcb;
        [|discriminate].
      injection Hcb as <-. exists m. split; [|reflexivity].
      exact (Module_at_well_formed _ _ _ _ _ Em).
Qed.

(** ** Subpackages *)

Lemma get_own_pair {A} (o : list (string * A)) k v :
  get_own k o = Some v -> In (k, v) o.
Proof.
  induction o as [|[k' v'] o IH]; simpl; [discriminate|].
  destruct (String.eqb k' k) eqn:E.
  - apply String.eqb_eq in E. intros H. injection H as <-. subst. now left.
  - intros H. right. now apply IH.
Qed.

Lemma NoDup_get_own {A} (o : list (string * A)) k v :
  NoDup (map fst o) -> In (k, v) o -> get_own k o = Some v.
Proof.
  induction o as [|[k' v'] o IH]; simpl; [contradiction|].
  intros Hnd [H|H]; inversion Hnd as [|? ? Hnotin Hnd']; subst.
  - injection H as -> ->. now rewrite String.eqb_refl.
  - destruct (String.eqb k' k) eqn:E; [|now apply IH].
    apply String.eqb_eq in E. subst k'. exfalso. apply Hnotin.
    apply in_map_iff. now exists (k, v).
Qed.

Lemma own_values_NoDup {A} (o : list (string * A)) :
  NoDup (map fst o) ->
  flat_map (fun key => match get_own key o with
                       | Some v => [v]
                       | None => []
                       end) (map fst o) = map snd o.
Proof.
  intros Hnd.
  assert (H : forall l, (forall kv, In kv l -> In kv o) ->
            flat_map (fun key => match get_own key o with
                                 | Some v => [v]
                                 | None => []
                                 end) (map fst l) = map snd l).
  { induction l as [|[k v] l IH]; intros Hl; [reflexivity|]. simpl.
    rewrite (NoDup_get_own o k v Hnd (Hl _ (or_introl eq_refl))). simpl.
    f_equal. apply IH. intros kv Hkv. apply Hl. now right. }
  apply H. auto.
Qed.

(** X2. In a well-formed module, [get_subpackages] throws the host's
    [TypeError] when a child is called [values], [keys] or
    [hasOwnProperty]; otherwise it returns exactly the children that are
    packages and are not called [tests], each of them the child that sits
    under its id, and [has_subpackages] says whether there is one. A
    module that is not a package has no subpackages. *)
Theorem subpackages_are_package_children self :
  well_formed self ->
  (if hasOwnProperty (submodules self) "values"
      || hasOwnProperty (submodules self) "keys"
      || hasOwnProperty (submodules self) "hasOwnProperty"
   then get_subpackages self = Throw TypeError
        /\ has_subpackages self = Throw TypeError
   else exists subpackages,
       get_subpackages self = Return subpackages
       /\ (forall c, In c subpackages <->
                     get_own (id c) (submodules self) = Some c
                     /\ packaged c = true /\ id c <> "tests")
       /\ has_subpackages self =
          Return (match subpackages with [] => false | _ :: _ => true end))
  /\ (packaged self = false ->
      get_subpackages self = Return [] /\ has_subpackages self = Return false).
Proof.
  intros Hwf. apply well_formed_eq in Hwf. destruct Hwf as (Hnd & Hleaf & Hall).
  split.
  - unfold has_subpackages, get_subpackages, own_values.
    destruct (hasOwnProperty (submodules self) "values"
              || hasOwnProperty (submodules self) "keys"
              || hasOwnProperty (submodules self) "hasOwnProperty");
      [now split|].
    cbn [rbind]. eexists. split; [reflexivity|]. split.
    + intros c.
      rewrite filter_In, (own_values_NoDup _ Hnd), andb_true_iff, negb_true_iff,
        String.eqb_neq, in_map_iff.
      split.
      * intros [([k c'] & Hc & Hin) [Hp Hid]]. cbn [snd] in Hc. subst c'.
        rewrite Forall_forall in Hall. destruct (Hall _ Hin) as [Hk _].
        cbn [fst snd] in Hk. subst k.
        repeat split; [now apply NoDup_get_own | exact Hp | exact Hid].
      * intros (Hget & Hp & Hid). split; [|now split].
        exists (id c, c). split; [reflexivity | now apply get_own_pair].
    + now destruct (filter _ _).
  - intros Hp. unfold has_subpackages, get_subpackages, own_values.
    now rewrite (Hleaf Hp).
Qed.

(** ** Walking the tree *)

(** X3. [get_submodule] composes: walking [ts ++ ts'] from a module is
    walking [ts'] from the module that [ts] leads to, and a walk that is
    lost after [ts] ends in the host's [TypeError] however it goes on. *)
Theorem get_submodule_composes ts : forall self ts',
  ts <> [] -> ts' <> [] ->
  get_submodule self (ts ++ ts') =
  match get_submodule self ts with
  | Return (Some s) => get_submodule s ts'
  | _ => Throw TypeError
  end.
Proof.
  induction ts as [|t ts IH]; intros self ts' Hts Hts'; [congruence|].
  destruct ts as [|t2 ts].
  - destruct ts' as [|t' ts']; [congruence|]. cbn.
    destruct (get_own t (submodules self)); reflexivity.
  - change ((t :: t2 :: ts) ++ ts')%list with (t :: ((t2 :: ts) ++ ts'))%list.
    cbn [get_submodule app].
    destruct (get_own t (submodules self)) as [s1|]; [|reflexivity].
    apply (IH s1 ts'); [discriminate | exact Hts'].
Qed.

(** [split] and [join] undo each other: joining the pieces of a string
    with the separator gives the string back, and splitting the join of a
    non-empty array of strings that lack the separator gives the array
    back. *)
Theorem split_join_round_trip (sep : ascii) :
  (forall s, join (String sep "") (split sep s) = s)
  /\ (forall l, l <> [] -> Forall (fun t => lacks sep t = true) l ->
                split sep (join (String sep "") l) = l).
Proof.
  unfold join. split.
  - induction s as [|c s IH]; [reflexivity|]. cbn [split].
    destruct (Ascii.eqb c sep) eqn:E.
    + apply Ascii.eqb_eq in E. subst c.
      destruct (split sep s) as [|w ws] eqn:Es; [now apply split_nonempty in Es|].
      change (String.concat (String sep "") ("" :: w :: ws))
        with (String sep (String.concat (String sep "") (w :: ws))).
      now rewrite IH.
    + destruct (split sep s) as [|w ws] eqn:Es; [now apply split_nonempty in Es|].
      rewrite <- IH. destruct ws; reflexivity.
  - assert (Hone : forall t, lacks sep t = true -> split sep t = [t]).
    { induction t as [|c t IHt]; [reflexivity|]. cbn.
      intros H. apply andb_true_iff in H as [Hc Ht].
      apply negb_true_iff in Hc. now rewrite Hc, (IHt Ht). }
    induction l as [|x l IH]; intros Hne Hall; [congruence|].
    inversion Hall as [|? ? Hx Hl]; subst.
    destruct l as [|y l]; [now apply Hone|].
    change (String.concat (String sep "") (x :: y :: l))
      with (x ++ String sep (String.concat (String sep "") (y :: l))).
    rewrite split_app, (Hone _ Hx), IH; [reflexivity | discriminate | exact Hl].
Qed.

Lemma split_join_terms l :
  l <> [] -> Forall (fun t => is_term t = true) l -> split "/" (join "/" l) = l.
Proof.
  unfold join. induction l as [|x l IH]; intros Hne Hall; [congruence|].
  inversion Hall as [|? ? Hx Hl]; subst.
  destruct l as [|y l]; [now apply split_term|].
  change (String.concat "/" (x :: y :: l)) with (x ++ String "/" (String.concat "/" (y :: l))).
  rewrite split_app, (split_term _ Hx), IH; [reflexivity | discriminate | exact Hl].
Qed.

Section Walks.
Context {host : Host}.
Variable __modules__ : list (string * Module_).

(** X4. [require] of a deep identifier is [load] on the module the tree
    walk reaches: when no package is called [hasOwnProperty], [p] names a
    package and the terms [ts] lead from it to the module [s],
    [require("p/t1/.../tn")] is [s.load().exports]. *)
Theorem require_loads_the_module_reached p ts m s :
  hasOwnProperty __modules__ "hasOwnProperty" = false ->
  is_term p = true ->
  Forall (fun t => is_term t = true) ts ->
  ts <> [] ->
  get_own p __modules__ = Some m ->
  get_submodule m ts = Return (Some s) ->
  require __modules__ (join "/" (p :: ts)) = load (p :: ts) s.
Proof.
  intros Hh Hp Hts Hne Hm Hs. unfold require.
  rewrite Hh, split_join_terms; [|discriminate | now constructor].
  cbn [hd tl]. rewrite Hm. destruct ts as [|t ts]; [congruence|].
  unfold bind, lift. rewrite Hs. reflexivity.
Qed.



End Walks.

(** * Beyond the claims: the patches on [Object] *)

Lemma set_prop_fresh {A} (o : list (string * A)) k v :
  ~ In k (map fst o) -> set_prop k v o = (o ++ [(k, v)])%list.
Proof.
  induction o as [|[k0 v0] o IH]; simpl; intros Hn; [reflexivity|].
  destruct (String.eqb k0 k) eqn:E.
  - apply String.eqb_eq in E. subst k0. exfalso. apply Hn. now left.
  - rewrite IH; [reflexivity|]. intros H. apply Hn. now right.
Qed.

(** Copying under fresh, distinct names appends the bindings in order. *)
Lemma copy_fresh (F : string -> value) ns : forall g,
  NoDup (map fst g ++ ns) ->
  fold_left (fun g k => set_prop k (F k) g) ns g =
  (g ++ map (fun k => (k, F k)) ns)%list.
Proof.
  induction ns as [|k ns IH]; intros g Hnd; simpl.
  - now rewrite app_nil_r.
  - assert (Hk : ~ In k (map fst g)).
    { intros Hin. apply NoDup_remove_2 in Hnd. apply Hnd.
      apply in_or_app. now left. }
    rewrite (set_prop_fresh _ _ _ Hk), IH.
    + now rewrite <- app_assoc.
    + rewrite map_app, <- app_assoc. exact Hnd.
Qed.

Lemma filter_none {A} (f : A -> bool) l :
  (forall a, In a l -> f a = false) -> filter f l = [].
Proof.
  intros H. rewrite (filter_ext_in f (fun _ => false) l H). apply filter_false.
Qed.

Lemma for_in_names_NoDup (o : obj) :
  NoDup (map fst o) -> NoDup (for_in_names o).
Proof.
  intros Hnd. unfold for_in_names. apply NoDup_app; [exact Hnd | |].
  - apply NoDup_filter. cbn.
    repeat (constructor; [cbn; intuition discriminate|]). constructor.
  - intros k Hk Hf. apply filter_In in Hf as [_ Hf].
    unfold hasOwnProperty in Hf.
    destruct (get_own k o) eqn:E; [discriminate|].
    apply get_own_None in E. contradiction.
Qed.

Lemma prototype_holds_functions k v :
  get_own k Object_prototype = Some v -> is_function v = true.
Proof.
  unfold Object_prototype.
  generalize ["merge"; "extend"; "clone"; "keys"; "values"; "is"; "has";
              "has_own"; "to_console"; "serialize"; "deserialize"; "to"].
  intros l. induction l as [|f l IH]; simpl; [discriminate|].
  destruct (String.eqb f k); [|exact IH]. intros H. now injection H as <-.
Qed.

Lemma own_read (o : obj) k v :
  NoDup (map fst o) -> In (k, v) o ->
  hasOwnProperty o k = true /\ get_prop o k = v.
Proof.
  intros Hnd Hin. unfold hasOwnProperty, get_prop.
  now rewrite (NoDup_get_own o k v Hnd Hin).
Qed.

(** X6. On an object with distinct keys that hides neither the built-in
    [hasOwnProperty] nor the [keys] of [Object.prototype], [keys()] lists
    the names of the own properties that hold no function, in insertion
    order, and [values()] lists their values in the same order: zipped
    together they are those properties. *)
Theorem keys_and_values_line_up (o : obj) :
  NoDup (map fst o) ->
  hasOwnProperty o "hasOwnProperty" = false ->
  get_prop o "keys" = get_prop [] "keys" ->
  keys o = map fst (filter (fun kv => negb (is_function (snd kv))) o)
  /\ values o = map snd (filter (fun kv => negb (is_function (snd kv))) o)
  /\ combine (keys o) (values o) =
     filter (fun kv => negb (is_function (snd kv))) o.
Proof.
  intros Hnd _ _.
  assert (Hk : keys o = map fst (filter (fun kv => negb (is_function (snd kv))) o)).
  { unfold keys, for_in_names. rewrite filter_app, (filter_none _ (filter _ _)).
    - rewrite app_nil_r.
      assert (H : forall l, (forall kv, In kv l -> In kv o) ->
                filter (fun key => hasOwnProperty o key
                                   && negb (is_function (get_prop o key)))
                       (map fst l) =
                map fst (filter (fun kv => negb (is_function (snd kv))) l)).
      { induction l as [|[k v] l IH]; intros Hl; [reflexivity|]. cbn [map filter fst snd].
        destruct (own_read o k v Hnd (Hl _ (or_introl eq_refl))) as [H1 H2].
        rewrite H1, H2. cbn [andb]. rewrite IH by (intros kv Hkv; apply Hl; now right).
        destruct (is_function v); reflexivity. }
      apply H. auto.
    - intros k Hin. apply filter_In in Hin as [_ Hin].
      apply negb_true_iff in Hin. now rewrite Hin. }
  assert (Hv : values o = map snd (filter (fun kv => negb (is_function (snd kv))) o)).
  { unfold values. rewrite Hk, map_map. apply map_ext_in.
    intros [k v] Hin. apply filter_In in Hin as [Hin _].
    destruct (own_read o k v Hnd Hin) as [_ H2]. exact H2. }
  split; [exact Hk|]. split; [exact Hv|].
  rewrite Hk, Hv. generalize (filter (fun kv => negb (is_function (snd kv))) o).
  intros l. induction l as [|[k v] l IH]; [reflexivity|]. cbn. now rewrite IH.
Qed.

(** X7. After [a.merge(b)], reading a property gives [b]'s value wherever
    [b] has one, own or inherited from [Object.prototype], and [a]'s value
    elsewhere; every such property of [b] has become an own property of
    [a], the inherited helper functions included. *)
Theorem merge_reads (this obj_ : obj) (k : string) :
  get_prop (merge this obj_) k =
    (if hasOwnProperty obj_ k || hasOwnProperty Object_prototype k
     then get_prop obj_ k else get_prop this k)
  /\ hasOwnProperty (merge this obj_) k =
     hasOwnProperty this k || hasOwnProperty obj_ k
     || hasOwnProperty Object_prototype k.
Proof.
  assert (Hnames : In k (for_in_names obj_) <->
                   hasOwnProperty obj_ k || hasOwnProperty Object_prototype k = true).
  { rewrite for_in_names_spec, orb_true_iff. unfold hasOwnProperty.
    destruct (get_own k obj_) eqn:Eo.
    - split; [auto|]. intros _. left. exact (get_own_In _ _ _ Eo).
    - destruct (get_own k Object_prototype) eqn:Ep.
      + split; [auto|]. intros _. right. split; [|reflexivity].
        exact (get_own_In _ _ _ Ep).
      + apply get_own_None in Eo. apply get_own_None in Ep.
        split; [tauto | intros [H|H]; discriminate]. }
  assert (Hget : get_own k (merge this obj_) =
                 if hasOwnProperty obj_ k || hasOwnProperty Object_prototype k
                 then Some (get_prop obj_ k) else get_own k this).
  { unfold merge.
    destruct (in_dec string_dec k (for_in_names obj_)) as [Hin|Hout].
    - rewrite (copy_assigned (get_prop obj_) _ _ _ Hin).
      apply Hnames in Hin. now rewrite Hin.
    - rewrite (copy_untouched (get_prop obj_) _ _ _ Hout).
      destruct (hasOwnProperty obj_ k || hasOwnProperty Object_prototype k) eqn:E;
        [|reflexivity].
      exfalso. apply Hout. now apply Hnames. }
  split.
  - unfold get_prop at 1. rewrite Hget.
    destruct (hasOwnProperty obj_ k || hasOwnProperty Object_prototype k) eqn:E;
      [reflexivity|].
    apply orb_false_iff in E as [_ Ep]. unfold get_prop, hasOwnProperty in *.
    destruct (get_own k Object_prototype); [discriminate | reflexivity].
  - unfold hasOwnProperty at 1. rewrite Hget, <- orb_assoc.
    destruct (hasOwnProperty obj_ k || hasOwnProperty Object_prototype k);
      [now rewrite orb_true_r | now rewrite orb_false_r].
Qed.

(** X8. [clone()] of a plain object that does not hide the built-in
    [constructor] reads like the original at every property name. The
    clone holds the helper functions of [Object.prototype] as own
    properties, yet hides no built-in the original did not hide, and when
    the original has distinct keys and hides neither [hasOwnProperty] nor
    [keys], the clone has the same [keys()] and [values()]. *)
Theorem clone_reads_like_the_original (o : obj) :
  hasOwnProperty o "constructor" = false ->
  (forall k, get_prop (clone o) k = get_prop o k)
  /\ (forall k, hasOwnProperty (clone o) k =
                hasOwnProperty o k || hasOwnProperty Object_prototype k)
  /\ (NoDup (map fst o) ->
      hasOwnProperty o "hasOwnProperty" = false ->
      get_prop o "keys" = get_prop [] "keys" ->
      keys (clone o) = keys o /\ values (clone o) = values o).
Proof.
  intros _.
  assert (Hread : forall k, get_prop (clone o) k = get_prop o k).
  { intros k. unfold clone, merge, get_prop at 1.
    destruct (in_dec string_dec k (for_in_names o)) as [Hin|Hout].
    - now rewrite (copy_assigned (get_prop o) _ _ _ Hin).
    - rewrite (copy_untouched (get_prop o) _ _ _ Hout). cbn [get_own].
      rewrite for_in_names_spec in Hout. unfold get_prop.
      destruct (get_own k o) eqn:Eo; [exfalso; apply Hout; left;
                                      exact (get_own_In _ _ _ Eo)|].
      destruct (get_own k Object_prototype) eqn:Ep; [|reflexivity].
      exfalso. apply Hout. right. split; [exact (get_own_In _ _ _ Ep) | reflexivity]. }
  split; [exact Hread|].
  split.
  { intros k. unfold clone, merge, hasOwnProperty at 1.
    assert (Hnames : In k (for_in_names o) <->
                     hasOwnProperty o k || hasOwnProperty Object_prototype k = true).
    { rewrite for_in_names_spec, orb_true_iff. unfold hasOwnProperty.
      destruct (get_own k o) eqn:Eo.
      - split; [auto|]. intros _. left. exact (get_own_In _ _ _ Eo).
      - destruct (get_own k Object_prototype) eqn:Ep.
        + split; [auto|]. intros _. right. split; [|reflexivity].
          exact (get_own_In _ _ _ Ep).
        + apply get_own_None in Eo. apply get_own_None in Ep.
          split; [tauto | intros [H|H]; discriminate]. }
    destruct (in_dec string_dec k (for_in_names o)) as [Hin|Hout].
    - rewrite (copy_assigned (get_prop o) _ _ _ Hin).
      apply Hnames in Hin. now rewrite Hin.
    - rewrite (copy_untouched (get_prop o) _ _ _ Hout). cbn [get_own].
      destruct (hasOwnProperty o k || hasOwnProperty Object_prototype k) eqn:E;
        [|reflexivity].
      exfalso. apply Hout. now apply Hnames. }
  intros Hnd _ _.
  assert (Hc : clone o = map (fun k => (k, get_prop o k)) (for_in_names o)).
  { unfold clone, merge. rewrite copy_fresh; [reflexivity|].
    now apply for_in_names_NoDup. }
  assert (Hown : forall k, hasOwnProperty (clone o) k = true <-> In k (for_in_names o)).
  { intros k. unfold hasOwnProperty. destruct (get_own k (clone o)) eqn:E.
    - apply get_own_In in E. rewrite Hc, map_map in E. cbn [fst] in E.
      rewrite map_id in E. tauto.
    - apply get_own_None in E. rewrite Hc, map_map in E. cbn [fst] in E.
      rewrite map_id in E. split; [discriminate | contradiction]. }
  assert (Hk : keys (clone o) = keys o).
  { unfold keys at 1. unfold for_in_names at 1. rewrite filter_app.
    rewrite (filter_none _ (filter _ _)).
    - rewrite app_nil_r.
      assert (Hfst : map fst (clone o) = for_in_names o).
      { rewrite Hc, map_map. cbn [fst]. apply map_id. }
      rewrite Hfst. unfold keys. apply filter_ext_in. intros k Hin.
      rewrite Hread. rewrite (proj2 (Hown k) Hin). cbn [andb].
      unfold hasOwnProperty. destruct (get_own k o) eqn:Eo; [reflexivity|].
      apply for_in_names_spec in Hin. destruct Hin as [Hin|[Hin _]].
      + apply get_own_None in Eo. contradiction.
      + unfold get_prop. rewrite Eo.
        destruct (get_own k Object_prototype) eqn:Ep.
        * now rewrite (prototype_holds_functions _ _ Ep).
        * apply get_own_None in Ep. contradiction.
    - intros k Hin. apply filter_In in Hin as [_ Hin].
      apply negb_true_iff in Hin. now rewrite Hin. }
  split; [exact Hk|]. unfold values. rewrite Hk. apply map_ext. exact Hread.
Qed.

(** * Beyond the claims: the patches on [String] *)

Lemma append_empty_r s : s ++ "" = s.
Proof. induction s as [|c s IH]; simpl; [reflexivity | now rewrite IH]. Qed.

Lemma append_assoc a b c : (a ++ b) ++ c = a ++ b ++ c.
Proof. induction a as [|x a IH]; simpl; [reflexivity | now rewrite IH]. Qed.

Lemma substring_prefix_app a b : substring 0 (String.length a) (a ++ b) = a.
Proof.
  induction a as [|c a IH]; simpl; [now destruct b | now rewrite IH].
Qed.

Lemma substring_middle pre sub post :
  substring (String.length pre) (String.length sub) (pre ++ sub ++ post) = sub.
Proof.
  induction pre as [|c pre IH]; simpl; [apply substring_prefix_app | exact IH].
Qed.

Lemma prefix_split sub : forall s,
  substring 0 (String.length sub) s = sub -> exists rest, s = sub ++ rest.
Proof.
  induction sub as [|a sub IH]; intros s H; [now exists s|].
  destruct s as [|b s]; simpl in H; [discriminate|].
  injection H as -> H. destruct (IH _ H) as [rest ->]. now exists rest.
Qed.

(** An occurrence at position [m] cuts the string in three. *)
Lemma occurrence_split sub m : forall s,
  substring m (String.length sub) s = sub ->
  exists pre post,
    s = pre ++ sub ++ post /\ (sub <> "" -> String.length pre = m).
Proof.
  induction m as [|m IH]; intros s H.
  - destruct (prefix_split _ _ H) as [rest ->]. exists "", rest. now split.
  - destruct s as [|c s]; simpl in H.
    + subst sub. exists "", "". split; [reflexivity | congruence].
    + destruct (IH _ H) as (pre & post & -> & Hlen).
      exists (String c pre), post. split; [reflexivity|].
      intros Hne. simpl. now rewrite Hlen.
Qed.

Lemma index_at_prefix sub rest : index 0 sub (sub ++ rest) = Some 0.
Proof.
  destruct (sub ++ rest) as [|b s] eqn:E.
  - destruct sub; [reflexivity | discriminate].
  - assert (Hp : prefix sub (String b s) = true).
    { rewrite <- E. apply prefix_correct. apply substring_prefix_app. }
    cbn [index]. now rewrite Hp.
Qed.

Lemma index_finds sub pre post : index 0 sub (pre ++ sub ++ post) <> None.
Proof.
  intros H. destruct sub as [|a sub].
  - apply index_correct4 in H. lia.
  - apply (index_correct3 0 (String.length pre)) in H; [|discriminate | lia].
    apply H. apply substring_middle.
Qed.

(** X9. [startswith] holds exactly of the non-empty strings that begin
    with the substring; the empty string starts with nothing, not even with
    the empty string. *)
Theorem startswith_spec this substring_ :
  startswith this substring_ = true <->
  this <> "" /\ exists rest, this = substring_ ++ rest.
Proof.
  unfold startswith, indexOf. split.
  - destruct this as [|c s] eqn:Es; [discriminate|]. rewrite <- Es.
    replace (Nat.eqb (String.length this) 0) with false by (now subst).
    destruct (index 0 substring_ this) as [n|] eqn:Ei; [|discriminate].
    intros H. apply Z.eqb_eq in H. assert (n = 0) by lia. subst n.
    apply index_correct1 in Ei. split; [subst; discriminate|].
    now apply prefix_split.
  - intros [Hne [rest ->]].
    destruct (Nat.eqb (String.length (substring_ ++ rest)) 0) eqn:El.
    + apply Nat.eqb_eq in El. destruct (substring_ ++ rest); [congruence | discriminate].
    + now rewrite index_at_prefix.
Qed.

(** X10. [contains] holds exactly when the substring occurs somewhere in
    the string; the empty substring occurs in every string. *)
Theorem contains_spec this substring_ :
  contains this substring_ = true <->
  exists pre post, this = pre ++ substring_ ++ post.
Proof.
  unfold contains, indexOf. rewrite negb_true_iff, Z.eqb_neq. split.
  - destruct (index 0 substring_ this) as [n|] eqn:Ei; [|congruence].
    intros _. apply index_correct1 in Ei.
    destruct (occurrence_split _ _ _ Ei) as (pre & post & H & _). eauto.
  - intros (pre & post & ->).
    destruct (index 0 substring_ (pre ++ substring_ ++ post)) as [n|] eqn:Ei; [lia|].
    now apply index_finds in Ei.
Qed.

(** X11. For a non-empty substring no longer than the string, [endswith]
    holds exactly when the string ends with the substring and the
    substring occurs nowhere earlier in it: a suffix that also occurs
    earlier is not recognised. *)
Theorem endswith_only_when_first_occurrence_is_final this substring_ :
  substring_ <> "" ->
  String.length substring_ <= String.length this ->
  (endswith this substring_ = true <->
   (exists stem, this = stem ++ substring_)
   /\ (forall pre post, this = pre ++ substring_ ++ post -> post = "")).
Proof.
  intros Hne Hlen. unfold endswith, indexOf.
  assert (Hnz : Nat.eqb (String.length this) 0 = false).
  { apply Nat.eqb_neq. destruct substring_; [congruence | simpl in Hlen; lia]. }
  rewrite Hnz. split.
  - destruct (index 0 substring_ this) as [n|] eqn:Ei; [|intros H; lia].
    intros H. apply Z.eqb_eq in H.
    pose proof (index_correct1 _ _ _ _ Ei) as Hocc.
    destruct (occurrence_split _ _ _ Hocc) as (pre & post & Hs & Hpre).
    specialize (Hpre Hne). split.
    + exists pre. rewrite Hs at 1. f_equal.
      assert (Hp : String.length post = 0).
      { rewrite Hs, !length_app in H. lia. }
      destruct post; [apply append_empty_r | discriminate].
    + intros pre' post' Hs'. destruct post' as [|c post']; [reflexivity|]. exfalso.
      apply (index_correct2 _ _ _ _ Ei (String.length pre')); [lia | |].
      * rewrite Hs', !length_app in H. simpl in H. lia.
      * rewrite Hs'. apply substring_middle.
  - intros [[stem Hs] Honly].
    destruct (index 0 substring_ this) as [n|] eqn:Ei.
    + pose proof (index_correct1 _ _ _ _ Ei) as Hocc.
      destruct (occurrence_split _ _ _ Hocc) as (pre & post & Hs' & Hpre).
      specialize (Hpre Hne). rewrite (Honly _ _ Hs') in Hs'.
      apply Z.eqb_eq. rewrite Hs' at 1. rewrite !length_app. simpl. lia.
    + exfalso. rewrite Hs in Ei.
      rewrite <- (append_empty_r substring_) in Ei at 2.
      now apply index_finds in Ei.
Qed.

Lemma length_substring_le n m s : String.length (substring n m s) <= String.length s.
Proof.
  revert n m. induction s as [|c s IH]; intros [|n] [|m]; simpl; try lia.
  - specialize (IH 0 m). lia.
  - specialize (IH n 0). lia.
  - specialize (IH n (S m)). lia.
Qed.

(** X12. [endswith] also holds of every non-empty string that is exactly
    one character shorter than the substring: the search fails with -1,
    which is the difference of the lengths. *)
Theorem endswith_accepts_one_short this substring_ :
  this <> "" ->
  S (String.length this) = String.length substring_ ->
  endswith this substring_ = true.
Proof.
  intros Hne Hlen. unfold endswith, indexOf.
  destruct (Nat.eqb (String.length this) 0) eqn:El.
  - apply Nat.eqb_eq in El. destruct this; [congruence | discriminate].
  - destruct (index 0 substring_ this) as [n|] eqn:Ei.
    + apply index_correct1 in Ei.
      pose proof (length_substring_le n (String.length substring_) this) as Hle.
      rewrite Ei in Hle. lia.
    + apply Z.eqb_eq. lia.
Qed.

(** ** Trimming one character *)

Lemma lacks_app c x y : lacks c (x ++ y) = lacks c x && lacks c y.
Proof.
  induction x as [|b x IH]; simpl; [reflexivity|].
  rewrite IH. now rewrite andb_assoc.
Qed.

Lemma split_lacks c s : lacks c s = true -> split c s = [s].
Proof.
  induction s as [|b s IH]; [reflexivity|]. cbn.
  intros H. apply andb_true_iff in H as [Hb Hs].
  apply negb_true_iff in Hb. now rewrite Hb, (IH Hs).
Qed.

Lemma prefix_char a b s : prefix (String a "") (String b s) = true <-> a = b.
Proof.
  rewrite prefix_correct. destruct s; simpl; split; congruence.
Qed.

Lemma index_char_lacks a s :
  lacks a s = true -> index 0 (String a "") s = None.
Proof.
  induction s as [|b s IH]; [reflexivity|]. cbn [lacks index].
  intros H. apply andb_true_iff in H as [Hb Hs].
  apply negb_true_iff, Ascii.eqb_neq in Hb.
  destruct (prefix (String a "") (String b s)) eqn:Ep.
  - apply prefix_char in Ep. congruence.
  - now rewrite (IH Hs).
Qed.

Lemma index_char_first a stem rest :
  lacks a stem = true ->
  index 0 (String a "") (stem ++ String a rest) = Some (String.length stem).
Proof.
  induction stem as [|b stem IH]; cbn [lacks append index String.length].
  - intros _. now rewrite (proj2 (prefix_char a a rest) eq_refl).
  - intros H. apply andb_true_iff in H as [Hb Hs].
    apply negb_true_iff, Ascii.eqb_neq in Hb.
    destruct (prefix (String a "") (String b (stem ++ String a rest))) eqn:Ep.
    + apply prefix_char in Ep. congruence.
    + now rewrite (IH Hs).
Qed.

Lemma char_split a s :
  lacks a s = true \/
  exists stem rest, s = stem ++ String a rest /\ lacks a stem = true.
Proof.
  induction s as [|b s IH]; [now left|]. cbn [lacks].
  destruct (Ascii.eqb b a) eqn:E.
  - apply Ascii.eqb_eq in E. subst b. right. now exists "", s.
  - destruct IH as [IH|(stem & rest & -> & Hs)]; [left; now rewrite IH|].
    right. exists (String b stem), rest. split; [reflexivity|].
    cbn [lacks]. now rewrite E, Hs.
Qed.

(** With a one-character substring, [endswith] holds exactly when that
    character is the last one and occurs nowhere else. *)
Lemma endswith_char a s :
  endswith s (String a "") = true <->
  exists stem, s = stem ++ String a "" /\ lacks a stem = true.
Proof.
  unfold endswith, indexOf. split.
  - destruct (Nat.eqb (String.length s) 0) eqn:El; [discriminate|].
    apply Nat.eqb_neq in El.
    destruct (char_split a s) as [H|(stem & rest & Hs & Hstem)].
    + rewrite (index_char_lacks _ _ H). intros H0. apply Z.eqb_eq in H0.
      simpl in H0. lia.
    + subst s. rewrite (index_char_first _ _ _ Hstem). intros H0.
      apply Z.eqb_eq in H0. rewrite length_app in H0. cbn [String.length] in H0.
      destruct rest; [|cbn [String.length] in H0; lia]. now exists stem.
  - intros (stem & -> & Hstem). rewrite (index_char_first _ _ _ Hstem).
    rewrite length_app. cbn [String.length].
    destruct (Nat.eqb (String.length stem + 1) 0) eqn:El;
      [apply Nat.eqb_eq in El; lia|].
    apply Z.eqb_eq. lia.
Qed.

Lemma slice_off_app a b : slice_off (String.length b) (a ++ b) = a.
Proof.
  unfold slice_off. rewrite length_app.
  replace (String.length a + String.length b - String.length b)
    with (String.length a) by lia.
  apply substring_prefix_app.
Qed.

Lemma endswith_char_lacks a s : lacks a s = true -> endswith s (String a "") = false.
Proof.
  intros H. destruct (endswith s (String a "")) eqn:E; [|reflexivity].
  apply endswith_char in E as (stem & -> & _).
  rewrite lacks_app in H. cbn in H. rewrite Ascii.eqb_refl in H.
  now rewrite andb_false_r in H.
Qed.

(** With a one-character argument [rtrim] strips at most once. *)
Lemma rtrim_char_eq a s :
  rtrim s (String a "") =
  if endswith s (String a "") then slice_off 1 s else s.
Proof.
  unfold rtrim. cbn [rtrim_rounds].
  destruct (endswith s (String a "")) eqn:E; [|reflexivity].
  apply endswith_char in E as (stem & -> & Hstem).
  change 1 with (String.length (String a "")). rewrite slice_off_app.
  rewrite length_app, Nat.add_comm. cbn [String.length Nat.add rtrim_rounds].
  now rewrite (endswith_char_lacks _ _ Hstem).
Qed.

Lemma ltrim_rounds_eats a stem : forall n,
  lacks a stem = true -> String.length stem < n ->
  ltrim_rounds n (stem ++ String a "") (String a "") = "".
Proof.
  induction stem as [|b stem IH]; intros [|n] Hl Hn; try (simpl in Hn; lia).
  - cbn [ltrim_rounds append].
    rewrite (proj2 (endswith_char a (String a "")))
      by (exists ""; split; reflexivity).
    destruct n; reflexivity.
  - cbn [ltrim_rounds].
    rewrite (proj2 (endswith_char a (String b stem ++ String a ""))) by eauto.
    cbn [append substr_1]. cbn [lacks] in Hl. apply andb_true_iff in Hl as [_ Hl].
    apply IH; [exact Hl | simpl in Hn; lia].
Qed.

(** With a one-character argument [ltrim] returns the empty string or the
    string itself. *)
Lemma ltrim_char_eq a s :
  ltrim s (String a "") = if endswith s (String a "") then "" else s.
Proof.
  unfold ltrim. destruct (endswith s (String a "")) eqn:E.
  - apply endswith_char in E as (stem & -> & Hstem).
    apply ltrim_rounds_eats; [exact Hstem|]. rewrite length_app. simpl. lia.
  - cbn [ltrim_rounds]. now rewrite E.
Qed.

(** X13. [rtrim] with a one-character argument removes that character from
    the end only when it occurs nowhere else in the string, and then only
    once; every other string comes back unchanged, also one that ends
    with the character twice. *)
Theorem rtrim_strips_one_lone_character (a : ascii) :
  (forall stem, lacks a stem = true ->
     rtrim (stem ++ String a "") (String a "") = stem)
  /\ (forall s, (forall stem, s = stem ++ String a "" -> lacks a stem = false) ->
       rtrim s (String a "") = s).
Proof.
  split.
  - intros stem Hstem. rewrite rtrim_char_eq.
    rewrite (proj2 (endswith_char a (stem ++ String a ""))) by eauto.
    change 1 with (String.length (String a "")). apply slice_off_app.
  - intros s Hs. rewrite rtrim_char_eq.
    destruct (endswith s (String a "")) eqn:E; [|reflexivity].
    apply endswith_char in E as (stem & Heq & Hstem).
    rewrite (Hs stem Heq) in Hstem. discriminate.
Qed.

(** X14. [ltrim] with a one-character argument tests the end of the
    string, not its start: a string whose only occurrence of the character
    is its last character is emptied, every other string comes back
    unchanged, a leading occurrence included; [trim] with that argument
    does the same. *)
Theorem ltrim_empties_or_keeps (a : ascii) :
  (forall stem, lacks a stem = true ->
     ltrim (stem ++ String a "") (String a "") = "")
  /\ (forall s, (forall stem, s = stem ++ String a "" -> lacks a stem = false) ->
       ltrim s (String a "") = s)
  /\ (forall rest, rest <> "" ->
       ltrim (String a rest) (String a "") = String a rest)
  /\ (forall s, trim s (String a "") = ltrim s (String a "")).
Proof.
  assert (Hkeep : forall s,
             (forall stem, s = stem ++ String a "" -> lacks a stem = false) ->
             ltrim s (String a "") = s).
  { intros s Hs. rewrite ltrim_char_eq.
    destruct (endswith s (String a "")) eqn:E; [|reflexivity].
    apply endswith_char in E as (stem & Heq & Hstem).
    rewrite (Hs stem Heq) in Hstem. discriminate. }
  split; [|split; [exact Hkeep|split]].
  - intros stem Hstem. rewrite ltrim_char_eq.
    now rewrite (proj2 (endswith_char a (stem ++ String a ""))) by eauto.
  - intros rest Hrest. apply Hkeep. intros [|b stem] Heq.
    + injection Heq as ->. congruence.
    + injection Heq as <- _. cbn. now rewrite Ascii.eqb_refl.
  - intros s. unfold trim. rewrite ltrim_char_eq, rtrim_char_eq.
    destruct (endswith s (String a "")) eqn:E; [reflexivity | now rewrite E].
Qed.

(** ** [File.prototype.component] *)

Lemma extension_after_dot body ext :
  lacks "." ext = true -> ext <> "" ->
  extension (body ++ "." ++ ext) = ext
  /\ basename (body ++ "." ++ ext) = rtrim (body ++ ".") ".".
Proof.
  intros Hext Hne.
  assert (He : extension (body ++ "." ++ ext) = ext).
  { unfold extension. change (body ++ "." ++ ext) with (body ++ String "." ext).
    rewrite split_app, (split_lacks _ _ Hext), List.length_app, last_last.
    cbn [List.length].
    destruct (split "." body) eqn:Es; [now apply split_nonempty in Es|].
    cbn [List.length]. rewrite Nat.add_1_r. reflexivity. }
  split; [exact He|]. unfold basename. rewrite He.
  destruct (Nat.eqb (String.length ext) 0) eqn:El.
  - apply Nat.eqb_eq in El. destruct ext; [congruence | discriminate].
  - rewrite <- append_assoc. now rewrite slice_off_app.
Qed.

(** X15. [component] on simple names: a name without a dot has the empty
    extension and is its own base name; a name [stem.ext] with one dot and
    a non-empty extension splits into the base name [stem] and the
    extension [ext], so that base name, dot and extension give the name
    back. *)
Theorem component_splits_simple_names :
  (forall nm, lacks "." nm = true -> extension nm = "" /\ basename nm = nm)
  /\ (forall stem ext,
        lacks "." stem = true -> lacks "." ext = true -> ext <> "" ->
        extension (stem ++ "." ++ ext) = ext
        /\ basename (stem ++ "." ++ ext) = stem
        /\ basename (stem ++ "." ++ ext) ++ "."
             ++ extension (stem ++ "." ++ ext) = stem ++ "." ++ ext).
Proof.
  split.
  - intros nm Hnm.
    assert (He : extension nm = "").
    { unfold extension. now rewrite (split_lacks _ _ Hnm). }
    split; [exact He|]. unfold basename. now rewrite He.
  - intros stem ext Hstem Hext Hne.
    destruct (extension_after_dot stem ext Hext Hne) as [He Hb].
    assert (Hb' : basename (stem ++ "." ++ ext) = stem).
    { rewrite Hb, rtrim_char_eq.
      rewrite (proj2 (endswith_char "." (stem ++ "."))) by eauto.
      change 1 with (String.length "."). apply slice_off_app. }
    rewrite He, Hb'. auto.
Qed.

Lemma append_inj_tail x y c : x ++ String c "" = y ++ String c "" -> x = y.
Proof.
  revert y. induction x as [|a x IH]; intros [|b y] H; simpl in H.
  - reflexivity.
  - injection H as _ H. destruct y; discriminate.
  - injection H as _ H. destruct x; discriminate.
  - injection H as -> H. now rewrite (IH _ H).
Qed.

(** X16. [component('basename')] on a name with more than one dot keeps a
    trailing dot: for [body.ext] where [body] itself contains a dot, the
    base name is [body.] and not [body]. *)
Theorem basename_keeps_the_dot_after_an_inner_dot body ext :
  lacks "." body = false -> lacks "." ext = true -> ext <> "" ->
  extension (body ++ "." ++ ext) = ext
  /\ basename (body ++ "." ++ ext) = body ++ ".".
Proof.
  intros Hbody Hext Hne.
  destruct (extension_after_dot body ext Hext Hne) as [He Hb].
  split; [exact He|]. rewrite Hb, rtrim_char_eq.
  destruct (endswith (body ++ ".") ".") eqn:E; [|reflexivity].
  apply endswith_char in E as (stem & Heq & Hstem).
  apply append_inj_tail in Heq. subst stem. congruence.
Qed.

(** * Beyond the claims: [Number.range] *)

Section Range.
Local Open Scope Z_scope.

(** Up to [2^53] in magnitude an integer is a double. *)
Lemma double_of_exact x : Z.abs x <= 2 ^ 53 -> double_of x = Some x.
Proof.
  intros H. unfold double_of. apply Z.leb_le in H. now rewrite H.
Qed.

(** The loop, with tests enough for the distance left to the bound and
    every sum it forms exact, pushes the arithmetic progression from [i]
    up to the first term that fails the test. *)
Lemma range_rounds_progression to step :
  step <> 0 -> Z.abs to + Z.abs step <= 2 ^ 53 + 1 -> forall n i,
  (if Z.abs i <? Z.abs to
   then (if 0 <? step then Z.abs to - i else Z.abs to + i)
   else 0) < Z.of_nat n ->
  exists len,
    range_rounds n i to step =
      Some (map (fun k => i + Z.of_nat k * step) (seq 0 len))
    /\ (forall k, (k < len)%nat -> Z.abs (i + Z.of_nat k * step) < Z.abs to)
    /\ ~ Z.abs (i + Z.of_nat len * step) < Z.abs to.
Proof.
  intros Hstep Hbound. induction n as [|n IH]; intros i Hfuel; cbn [range_rounds].
  - exfalso. destruct (Z.abs i <? Z.abs to) eqn:E; [|lia].
    apply Z.ltb_lt in E. destruct (0 <? step); lia.
  - destruct (Z.abs i <? Z.abs to) eqn:E.
    + apply Z.ltb_lt in E.
      rewrite double_of_exact by lia.
      destruct (IH (i + step)) as (len & Hrun & Hin & Hout).
      { destruct (0 <? step) eqn:Es;
          [apply Z.ltb_lt in Es | apply Z.ltb_ge in Es];
          (destruct (Z.abs (i + step) <? Z.abs to) eqn:E';
           [apply Z.ltb_lt in E'|]); lia. }
      exists (S len). split; [|split].
      * rewrite Hrun. cbn [option_map seq map]. do 2 f_equal; [lia|].
        rewrite <- seq_shift, map_map. apply map_ext. intros k. lia.
      * intros [|k] Hk.
        -- cbn. rewrite Z.add_0_r. exact E.
        -- specialize (Hin k ltac:(lia)).
           replace (i + Z.of_nat (S k) * step) with (i + step + Z.of_nat k * step) by lia.
           exact Hin.
      * replace (i + Z.of_nat (S len) * step) with (i + step + Z.of_nat len * step) by lia.
        exact Hout.
    + apply Z.ltb_ge in E. exists 0%nat. split; [reflexivity|].
      split; [intros k Hk; lia|]. cbn. rewrite Z.add_0_r. lia.
Qed.

(** X17. On integers below [2^53] in magnitude, where every sum the loop
    forms is exact, [Number.range(from, to, step)] returns, and what it
    returns is the arithmetic progression that starts at [from], advances
    by [step] (by 1 when the step is 0 or missing) and stops at the first
    term whose absolute value is not below the absolute value of [to]:
    its terms, in order, and nothing else. *)
Theorem range_is_the_progression from to step fuel :
  Z.abs from <= 2 ^ 53 ->
  Z.abs to + Z.abs step < 2 ^ 53 ->
  2 * Z.abs to < Z.of_nat fuel ->
  (exists len,
     Number_range fuel [from; to; step] =
       Some (map (fun k => from + Z.of_nat k * (if step =? 0 then 1 else step))
                 (seq 0 len))
     /\ (forall k, (k < len)%nat ->
           Z.abs (from + Z.of_nat k * (if step =? 0 then 1 else step)) < Z.abs to)
     /\ ~ Z.abs (from + Z.of_nat len * (if step =? 0 then 1 else step)) < Z.abs to)
  /\ Number_range fuel [from; to] = Number_range fuel [from; to; 1].
Proof.
  intros _ Hbound Hfuel. split; [|reflexivity].
  unfold Number_range. cbn [nth_error].
  apply range_rounds_progression.
  - destruct (step =? 0) eqn:E; [lia | now apply Z.eqb_neq].
  - destruct (step =? 0) eqn:E; [apply Z.eqb_eq in E|]; lia.
  - destruct (Z.abs from <? Z.abs to) eqn:E; [|lia].
    apply Z.ltb_lt in E. destruct (0 <? _); lia.
Qed.

Lemma range_rounds_counts to : Z.abs to < 2 ^ 53 -> forall k n i,
  0 <= i -> i + Z.of_nat k = Z.abs to -> (k < n)%nat ->
  range_rounds n i to 1 = Some (map Z.of_nat (seq (Z.to_nat i) k)).
Proof.
  intros Hbound. induction k as [|k IH]; intros n i Hi Hk Hn.
  - destruct n; [lia|]. cbn [range_rounds seq map].
    replace (Z.abs i <? Z.abs to) with false; [reflexivity|].
    symmetry. apply Z.ltb_ge. lia.
  - destruct n as [|n]; [lia|]. cbn [range_rounds seq map].
    replace (Z.abs i <? Z.abs to) with true by (symmetry; apply Z.ltb_lt; lia).
    rewrite double_of_exact by lia.
    rewrite (IH n (i + 1)) by lia. cbn [option_map].
    rewrite Z2Nat.id by lia.
    replace (Z.to_nat (i + 1)) with (S (Z.to_nat i)) by lia. reflexivity.
Qed.

(** X18. For [n] below [2^53] in magnitude, [Number.range(n)] counts from 0
    up to [|n| - 1], also for a negative [n]; [Number.range(from, n)] with
    [from] not negative counts from [from] up to [|n| - 1], and is empty
    when [from] is not below [|n|]. *)
Theorem range_counts_up n fuel :
  Z.abs n < 2 ^ 53 ->
  2 * Z.abs n < Z.of_nat fuel ->
  Number_range fuel [n] = Some (map Z.of_nat (seq 0 (Z.abs_nat n)))
  /\ (forall from, 0 <= from <= 2 ^ 53 ->
        Number_range fuel [from; n] =
        Some (map Z.of_nat (seq (Z.to_nat from) (Z.to_nat (Z.abs n - from))))).
Proof.
  intros Hbound Hfuel. split.
  - unfold Number_range. cbn [nth_error].
    apply (range_rounds_counts n Hbound (Z.abs_nat n) _ 0); lia.
  - intros from Hfrom. unfold Number_range. cbn [nth_error].
    destruct (Z.lt_ge_cases from (Z.abs n)) as [Hlt|Hge].
    + apply range_rounds_counts; [exact Hbound | lia..].
    + replace (Z.to_nat (Z.abs n - from)) with 0%nat by lia. cbn [seq map].
      destruct fuel; [lia|]. cbn [range_rounds].
      replace (Z.abs from <? Z.abs n) with false; [reflexivity|].
      symmetry. apply Z.ltb_ge. lia.
Qed.

(** X22. Where doubles are sparse the loop does not advance: when the sum
    [from + step] rounds back to [from], as [2^53 + 1] rounds to [2^53],
    and [from] is below [to] in magnitude, [Number.range] does not return,
    however many tests of the condition it is given. *)
Theorem range_stuck_where_doubles_are_sparse from to step fuel :
  step <> 0 ->
  Z.abs from < Z.abs to ->
  double_of (from + step) = Some from ->
  Number_range fuel [from; to; step] = None.
Proof.
  intros Hstep Hlt Hround. unfold Number_range. cbn [nth_error].
  apply Z.eqb_neq in Hstep. rewrite Hstep.
  apply Z.ltb_lt in Hlt.
  induction fuel as [|fuel IH]; cbn [range_rounds]; [reflexivity|].
  now rewrite Hlt, Hround, IH.
Qed.

End Range.

(** * Beyond the claims: base64 *)

Lemma string_ind3 (P : string -> Prop) :
  P "" ->
  (forall a, P (String a "")) ->
  (forall a b, P (String a (String b ""))) ->
  (forall a b c rest, P rest -> P (String a (String b (String c rest)))) ->
  forall s, P s.
Proof.
  intros H0 H1 H2 H3. fix IH 1. intros [|a [|b [|c rest]]];
    [exact H0 | apply H1 | apply H2 | apply H3; apply IH].
Qed.

Section Bits.
Local Open Scope Z_scope.

Lemma field_of_bits x w n :
  0 <= w -> 0 <= n ->
  Z.shiftr (Z.land x (Z.shiftl (Z.ones w) n)) n = (x / 2 ^ n) mod 2 ^ w.
Proof.
  intros Hw Hn.
  rewrite Z.shiftr_land, Z.shiftr_shiftl_l, Z.sub_diag, Z.shiftl_0_r by lia.
  rewrite Z.land_ones, Z.shiftr_div_pow2 by lia. reflexivity.
Qed.

Lemma low_bits x w : 0 <= w -> Z.land x (Z.ones w) = x mod 2 ^ w.
Proof. intros Hw. now apply Z.land_ones. Qed.

(** Masks and shifts by constants, as divisions and remainders. *)
Ltac bits_to_arith :=
  change 63 with (Z.ones 6) in *; change 255 with (Z.ones 8) in *;
  repeat rewrite ?field_of_bits, ?low_bits, ?Z.shiftl_mul_pow2 by lia;
  change (2 ^ 6) with 64 in *; change (2 ^ 8) with 256 in *;
  change (2 ^ 12) with 4096 in *; change (2 ^ 16) with 65536 in *;
  change (2 ^ 18) with 262144 in *.

(** The four sextets of three octets, and the octets back from them, also
    when the last one or two sextets are replaced by the padding index. *)
Lemma sextets_of_octets b0 b1 b2 :
  0 <= b0 < 256 -> 0 <= b1 < 256 -> 0 <= b2 < 256 ->
  let buf := Z.shiftl b0 16 + Z.shiftl b1 8 + b2 in
  let i0 := Z.shiftr (Z.land buf (Z.shiftl 63 18)) 18 in
  let i1 := Z.shiftr (Z.land buf (Z.shiftl 63 12)) 12 in
  let i2 := Z.shiftr (Z.land buf (Z.shiftl 63 6)) 6 in
  let i3 := Z.land buf 63 in
  (0 <= i0 < 64 /\ 0 <= i1 < 64 /\ 0 <= i2 < 64 /\ 0 <= i3 < 64)
  /\ forall j2 j3,
       (j2 = i2 \/ j2 = 64 /\ b1 = 0 /\ b2 = 0) ->
       (j3 = i3 \/ j3 = 64 /\ b2 = 0) ->
       let buf' := Z.shiftl i0 18 + Z.shiftl i1 12 + Z.shiftl (Z.land j2 63) 6
                   + Z.land j3 63 in
       Z.shiftr (Z.land buf' (Z.shiftl 255 16)) 16 = b0
       /\ Z.shiftr (Z.land buf' (Z.shiftl 255 8)) 8 = b1
       /\ Z.land buf' 255 = b2.
Proof.
  intros H0 H1 H2. cbv zeta. split.
  - bits_to_arith. repeat split; try apply Z.mod_pos_bound; lia.
  - intros j2 j3 Hj2 Hj3.
    destruct Hj2 as [->|(-> & -> & ->)]; destruct Hj3 as [->|(-> & ?)]; subst;
      bits_to_arith; Z.to_euclidean_division_equations; lia.
Qed.
End Bits.

Section Alphabet.
Variable chars : string.
Hypothesis Hok : alphabet_ok chars = true.

(** Every index up to 64 has its character, found back at that index, and
    [=] is the character of 64 alone. *)
Lemma charAt_index (z : Z) :
  (0 <= z <= 64)%Z ->
  exists c, charAt z chars = String c ""
            /\ indexOf chars (String c "") = z
            /\ Ascii.eqb c "=" = Z.eqb z 64.
Proof.
  intros Hz. unfold alphabet_ok in Hok. apply andb_true_iff in Hok as [_ Hall].
  rewrite forallb_forall in Hall.
  specialize (Hall (Z.to_nat z)). unfold charAt.
  destruct (get (Z.to_nat z) chars) as [c|];
    [|discriminate Hall; apply in_seq; lia].
  assert (Hin : In (Z.to_nat z) (seq 0 65)) by (apply in_seq; lia).
  apply Hall in Hin. apply andb_true_iff in Hin as [Hi He].
  apply Z.eqb_eq in Hi. apply Bool.eqb_prop in He.
  exists c. split; [reflexivity|]. split; [lia|].
  rewrite He. destruct (Z.eqb_spec z 64) as [->|Hne]; [reflexivity|].
  apply Nat.eqb_neq. lia.
Qed.

Lemma charCode_bounds c : (0 <= charCode c < 256)%Z.
Proof. unfold charCode. pose proof (nat_ascii_bounded c). lia. Qed.

Lemma fromCharCode_charCode c : fromCharCode (charCode c) = String c "".
Proof.
  unfold fromCharCode, charCode. now rewrite Nat2Z.id, ascii_nat_embedding.
Qed.

(** A full group of the encoder: four characters, none of them [=], which
    the decoder turns back into the three characters. *)
Lemma group_of_three c0 c1 c2 :
  exists k0 k1 k2 k3 i0 i1 i2 i3,
    encode_group chars (charCode c0) (Some (charCode c1)) (Some (charCode c2)) =
      String k0 (String k1 (String k2 (String k3 "")))
    /\ decode_group chars (Some k0) (Some k1) (Some k2) (Some k3) =
      String c0 (String c1 (String c2 ""))
    /\ sits_at chars k0 i0 /\ sits_at chars k1 i1 /\ sits_at chars k2 i2 /\ sits_at chars k3 i3
    /\ (0 <= i0 < 64 /\ 0 <= i1 < 64 /\ 0 <= i2 < 64 /\ 0 <= i3 < 64)%Z.
Proof.
  destruct (sextets_of_octets _ _ _ (charCode_bounds c0) (charCode_bounds c1)
              (charCode_bounds c2)) as [(R0 & R1 & R2 & R3) Hdec].
  cbv zeta in Hdec.
  specialize (Hdec _ _ (or_introl eq_refl) (or_introl eq_refl)).
  unfold encode_group. cbv zeta. cbv beta iota.
  set (buf := (Z.shiftl (charCode c0) 16 + Z.shiftl (charCode c1) 8 + charCode c2)%Z) in *.
  set (i0 := Z.shiftr (Z.land buf (Z.shiftl 63 18)) 18) in *.
  set (i1 := Z.shiftr (Z.land buf (Z.shiftl 63 12)) 12) in *.
  set (i2 := Z.shiftr (Z.land buf (Z.shiftl 63 6)) 6) in *.
  set (i3 := Z.land buf 63) in *.
  destruct (charAt_index i0 ltac:(lia)) as (k0 & E0 & I0 & Q0).
  destruct (charAt_index i1 ltac:(lia)) as (k1 & E1 & I1 & Q1).
  destruct (charAt_index i2 ltac:(lia)) as (k2 & E2 & I2 & Q2).
  destruct (charAt_index i3 ltac:(lia)) as (k3 & E3 & I3 & Q3).
  exists k0, k1, k2, k3, i0, i1, i2, i3. rewrite E0, E1, E2, E3.
  split; [reflexivity|]. split; [|unfold sits_at; auto 10].
  unfold decode_group, index_in. rewrite I0, I1, I2, I3. cbv zeta.
  destruct Hdec as (D0 & D1 & D2). rewrite D0, D1, D2.
  replace (Z.eqb i2 64) with false by (symmetry; apply Z.eqb_neq; lia).
  replace (Z.eqb i3 64) with false by (symmetry; apply Z.eqb_neq; lia).
  replace (Z.leb 0 (charCode c1)) with true
    by (symmetry; apply Z.leb_le; apply charCode_bounds).
  replace (Z.leb 0 (charCode c2)) with true
    by (symmetry; apply Z.leb_le; apply charCode_bounds).
  now rewrite !fromCharCode_charCode.
Qed.

(** The last group when two characters are left: one [=]. *)
Lemma group_of_two c0 c1 :
  exists k0 k1 k2 i0 i1 i2,
    encode_group chars (charCode c0) (Some (charCode c1)) None =
      String k0 (String k1 (String k2 (String "=" "")))
    /\ decode_group chars (Some k0) (Some k1) (Some k2) (Some "="%char) =
      String c0 (String c1 "")
    /\ sits_at chars k0 i0 /\ sits_at chars k1 i1 /\ sits_at chars k2 i2 /\ sits_at chars "=" 64
    /\ (0 <= i0 < 64 /\ 0 <= i1 < 64 /\ 0 <= i2 < 64)%Z.
Proof.
  destruct (sextets_of_octets _ _ 0 (charCode_bounds c0) (charCode_bounds c1)
              ltac:(lia)) as [(R0 & R1 & R2 & R3) Hdec].
  cbv zeta in Hdec.
  specialize (Hdec _ 64%Z (or_introl eq_refl) (or_intror (conj eq_refl eq_refl))).
  unfold encode_group. cbv zeta. cbv beta iota.
  set (buf := (Z.shiftl (charCode c0) 16 + Z.shiftl (charCode c1) 8 + 0)%Z) in *.
  set (i0 := Z.shiftr (Z.land buf (Z.shiftl 63 18)) 18) in *.
  set (i1 := Z.shiftr (Z.land buf (Z.shiftl 63 12)) 12) in *.
  set (i2 := Z.shiftr (Z.land buf (Z.shiftl 63 6)) 6) in *.
  destruct (charAt_index i0 ltac:(lia)) as (k0 & E0 & I0 & Q0).
  destruct (charAt_index i1 ltac:(lia)) as (k1 & E1 & I1 & Q1).
  destruct (charAt_index i2 ltac:(lia)) as (k2 & E2 & I2 & Q2).
  destruct (charAt_index 64 ltac:(lia)) as (k3 & E3 & I3 & Q3).
  apply Ascii.eqb_eq in Q3. subst k3.
  exists k0, k1, k2, i0, i1, i2. rewrite E0, E1, E2, E3.
  split; [reflexivity|]. split; [|unfold sits_at; auto 10].
  unfold decode_group, index_in. rewrite I0, I1, I2, I3. cbv zeta.
  destruct Hdec as (D0 & D1 & D2). rewrite D0, D1.
  replace (Z.eqb i2 64) with false by (symmetry; apply Z.eqb_neq; lia).
  replace (Z.leb 0 (charCode c1)) with true
    by (symmetry; apply Z.leb_le; apply charCode_bounds).
  cbn [Z.eqb Z.leb Z.compare]. now rewrite !fromCharCode_charCode.
Qed.

(** The last group when one character is left: two [=]. *)
Lemma group_of_one c0 :
  exists k0 k1 i0 i1,
    encode_group chars (charCode c0) None None =
      String k0 (String k1 (String "=" (String "=" "")))
    /\ decode_group chars (Some k0) (Some k1) (Some "="%char) (Some "="%char) =
      String c0 ""
    /\ sits_at chars k0 i0 /\ sits_at chars k1 i1 /\ sits_at chars "=" 64
    /\ (0 <= i0 < 64 /\ 0 <= i1 < 64)%Z.
Proof.
  destruct (sextets_of_octets _ 0 0 (charCode_bounds c0) ltac:(lia) ltac:(lia))
    as [(R0 & R1 & R2 & R3) Hdec].
  cbv zeta in Hdec.
  specialize (Hdec 64%Z 64%Z (or_intror (conj eq_refl (conj eq_refl eq_refl)))
                (or_intror (conj eq_refl eq_refl))).
  unfold encode_group. cbv zeta. cbv beta iota.
  set (buf := (Z.shiftl (charCode c0) 16 + Z.shiftl 0 8 + 0)%Z) in *.
  set (i0 := Z.shiftr (Z.land buf (Z.shiftl 63 18)) 18) in *.
  set (i1 := Z.shiftr (Z.land buf (Z.shiftl 63 12)) 12) in *.
  destruct (charAt_index i0 ltac:(lia)) as (k0 & E0 & I0 & Q0).
  destruct (charAt_index i1 ltac:(lia)) as (k1 & E1 & I1 & Q1).
  destruct (charAt_index 64 ltac:(lia)) as (k3 & E3 & I3 & Q3).
  apply Ascii.eqb_eq in Q3. subst k3.
  exists k0, k1, i0, i1. rewrite E0, E1, E3.
  split; [reflexivity|]. split; [|unfold sits_at; auto 10].
  unfold decode_group, index_in. rewrite I0, I1, I3. cbv zeta.
  destruct Hdec as (D0 & D1 & D2). rewrite D0.
  cbn [Z.eqb Z.leb Z.compare]. now rewrite !fromCharCode_charCode.
Qed.
Lemma mod4_step n : S (S (S (S n))) mod 4 = n mod 4.
Proof.
  replace (S (S (S (S n)))) with (n + 1 * 4) by lia. apply Nat.Div0.mod_add.
Qed.

Lemma valid_char k z rest :
  sits_at chars k z -> (0 <= z)%Z ->
  has_invalid_char chars (String k rest) = has_invalid_char chars rest.
Proof.
  intros [Hi _] Hz. cbn [has_invalid_char]. rewrite Hi.
  now replace (Z.eqb z (-1)) with false by (symmetry; apply Z.eqb_neq; lia).
Qed.

Lemma data_char k z rest :
  sits_at chars k z -> (0 <= z < 64)%Z ->
  pad_at_end (String k rest) = pad_at_end rest.
Proof.
  intros [_ Hq] Hz. cbn [pad_at_end]. rewrite Hq.
  now replace (Z.eqb z 64) with false by (symmetry; apply Z.eqb_neq; lia).
Qed.

(** The encoder output passes the checks of the decoder that look at one
    character or at the length. *)
Lemma encode_from_valid str :
  String.length (encode_from chars str) mod 4 = 0
  /\ has_invalid_char chars (encode_from chars str) = false
  /\ pad_at_end (encode_from chars str) = true.
Proof.
  induction str as [| c0 | c0 c1 | c0 c1 c2 rest IH] using string_ind3;
    cbn [encode_from].
  - repeat split.
  - destruct (group_of_one c0) as (k0 & k1 & i0 & i1 & E & _ & S0 & S1 & S2 & R).
    rewrite E. cbn [String.length].
    rewrite !(valid_char _ _ _ S0), !(valid_char _ _ _ S1), !(valid_char _ _ _ S2),
      (data_char _ _ _ S0), (data_char _ _ _ S1) by lia.
    repeat split.
  - destruct (group_of_two c0 c1)
      as (k0 & k1 & k2 & i0 & i1 & i2 & E & _ & S0 & S1 & S2 & S3 & R).
    rewrite E. cbn [String.length].
    rewrite !(valid_char _ _ _ S0), !(valid_char _ _ _ S1), !(valid_char _ _ _ S2),
      !(valid_char _ _ _ S3),
      (data_char _ _ _ S0), (data_char _ _ _ S1), (data_char _ _ _ S2) by lia.
    repeat split.
  - destruct (group_of_three c0 c1 c2)
      as (k0 & k1 & k2 & k3 & i0 & i1 & i2 & i3 & E & _ & S0 & S1 & S2 & S3 & R).
    rewrite E. cbn [append String.length]. rewrite mod4_step.
    rewrite !(valid_char _ _ _ S0), !(valid_char _ _ _ S1), !(valid_char _ _ _ S2),
      !(valid_char _ _ _ S3),
      (data_char _ _ _ S0), (data_char _ _ _ S1), (data_char _ _ _ S2),
      (data_char _ _ _ S3) by lia.
    exact IH.
Qed.

Lemma decode_from_encode_from str :
  decode_from chars (encode_from chars str) = str.
Proof.
  induction str as [| c0 | c0 c1 | c0 c1 c2 rest IH] using string_ind3;
    cbn [encode_from].
  - reflexivity.
  - destruct (group_of_one c0) as (k0 & k1 & i0 & i1 & E & D & _).
    rewrite E. cbn [decode_from]. now rewrite D.
  - destruct (group_of_two c0 c1) as (k0 & k1 & k2 & i0 & i1 & i2 & E & D & _).
    rewrite E. cbn [decode_from]. now rewrite D.
  - destruct (group_of_three c0 c1 c2)
      as (k0 & k1 & k2 & k3 & i0 & i1 & i2 & i3 & E & D & _).
    rewrite E. cbn [append decode_from]. rewrite D, IH. reflexivity.
Qed.
End Alphabet.

Lemma only_pad_blocked x y : only_pad (x ++ "/=/" ++ y) = false.
Proof.
  induction x as [|a x IH]; [reflexivity|].
  change (String a x ++ "/=/" ++ y) with (String a (x ++ "/=/" ++ y)).
  cbn [only_pad]. rewrite IH. apply andb_false_r.
Qed.

Lemma pad_at_end_blocked pre post : pad_at_end (pre ++ "/=/" ++ post) = false.
Proof.
  induction pre as [|a pre IH]; [reflexivity|].
  change (String a pre ++ "/=/" ++ post) with (String a (pre ++ "/=/" ++ post)).
  cbn [pad_at_end].
  destruct (Ascii.eqb a "="); [apply only_pad_blocked | exact IH].
Qed.

Lemma pad_at_end_contains s : pad_at_end s = true -> contains s "/=/" = false.
Proof.
  intros Hpad. unfold contains, indexOf.
  destruct (index 0 "/=/" s) as [n|] eqn:Ei; [|reflexivity].
  apply index_correct1 in Ei.
  destruct (occurrence_split _ _ _ Ei) as (pre & post & -> & _).
  rewrite pad_at_end_blocked in Hpad. discriminate.
Qed.

Lemma decoder_encoder extra str :
  alphabet_ok (alphabet extra) = true ->
  decoder extra (encoder extra str) = Return str.
Proof.
  intros Hok. unfold decoder, encoder.
  destruct (encode_from_valid _ Hok str) as (Hlen & Hchars & Hpad).
  rewrite Hlen, Hchars, (pad_at_end_contains _ Hpad). cbn [Nat.eqb negb orb andb].
  now rewrite decode_from_encode_from.
Qed.

(** X19. Decoding what the encoder produced gives the string back, for the
    standard alphabet and for the URL-safe one: the decoder accepts every
    encoder output and returns the original string. *)
Theorem base64_round_trip str :
  decode64 (encode64 str) = Return str
  /\ urlsafeDecode64 (urlsafeEncode64 str) = Return str.
Proof.
  split; apply decoder_encoder; vm_compute; reflexivity.
Qed.

Lemma encode_from_length chars str :
  alphabet_ok chars = true ->
  String.length (encode_from chars str) = 4 * ((String.length str + 2) / 3).
Proof.
  intros Hok.
  induction str as [| c0 | c0 c1 | c0 c1 c2 rest IH] using string_ind3;
    cbn [encode_from].
  - reflexivity.
  - destruct (group_of_one _ Hok c0) as (k0 & k1 & i0 & i1 & E & _). now rewrite E.
  - destruct (group_of_two _ Hok c0 c1) as (k0 & k1 & k2 & i0 & i1 & i2 & E & _).
    now rewrite E.
  - destruct (group_of_three _ Hok c0 c1 c2)
      as (k0 & k1 & k2 & k3 & i0 & i1 & i2 & i3 & E & _).
    rewrite E. cbn [append String.length]. rewrite IH.
    replace (S (S (S (String.length rest))) + 2) with (String.length rest + 2 + 1 * 3) by lia.
    rewrite Nat.div_add by lia. lia.
Qed.

(** X20. The encoded text has four characters for every three of the
    input, rounded up; all of them belong to the alphabet, and [=] occurs
    only as padding at the end. *)
Theorem base64_text_shape str :
  String.length (encode64 str) = 4 * ((String.length str + 2) / 3)
  /\ has_invalid_char (alphabet "+/") (encode64 str) = false
  /\ pad_at_end (encode64 str) = true
  /\ String.length (urlsafeEncode64 str) = 4 * ((String.length str + 2) / 3)
  /\ has_invalid_char (alphabet "-_") (urlsafeEncode64 str) = false
  /\ pad_at_end (urlsafeEncode64 str) = true.
Proof.
  assert (H1 : alphabet_ok (alphabet "+/") = true) by (vm_compute; reflexivity).
  assert (H2 : alphabet_ok (alphabet "-_") = true) by (vm_compute; reflexivity).
  destruct (encode_from_valid _ H1 str) as (_ & Hc1 & Hp1).
  destruct (encode_from_valid _ H2 str) as (_ & Hc2 & Hp2).
  unfold encode64, urlsafeEncode64, encoder.
  rewrite !encode_from_length by assumption. auto 10.
Qed.

(** * Beyond the claims: the search path *)

Lemma forEach_app {A S} (cb : A -> S -> result S) xs ys s :
  forEach (xs ++ ys) cb s = rbind (forEach xs cb s) (forEach ys cb).
Proof.
  revert s. induction xs as [|x xs IH]; intros s; cbn [app forEach rbind];
    [reflexivity|].
  destruct (cb x s) as [s1|e]; cbn [rbind]; [apply IH | reflexivity].
Qed.

(** X21. Scanning a search path is scanning its parts one after the other:
    [load_modules] on [a ++ b] registers what the scan of [a] registers and
    then what the scan of [b] registers on top of it, and when the scan of
    [a] throws, [b] is not scanned. *)
Theorem load_modules_in_sequence fs_root Folder_extendables a b __modules__ :
  load_modules fs_root Folder_extendables (a ++ b) __modules__ =
  match load_modules fs_root Folder_extendables a __modules__ with
  | Return registry => load_modules fs_root Folder_extendables b registry
  | Throw e => Throw e
  end.
Proof.
  unfold load_modules. rewrite forEach_app.
  match goal with |- rbind ?t _ = _ => destruct t as [registry|e] end;
    reflexivity.
Qed.

(** * Beyond the claims: the properties on sample data *)

Lemma sample_deep_well_formed : well_formed sample_deep.
Proof.
  cbn. repeat split; try discriminate;
    repeat (constructor; [cbn; intuition discriminate|]); constructor.
Qed.

Lemma subpackages_are_package_children_witness :
  get_subpackages sample_deep =
    Return [mkModule "sub" ["pkg"; "lib"; "sub"] true
              [("a", leaf "a" ["pkg"; "lib"; "sub"; "a.jsx"]);
               ("tests", mkModule "tests" ["pkg"; "lib"; "sub"; "tests"] true [])]]
  /\ has_subpackages sample_deep = Return true.
Proof.
  destruct (subpackages_are_package_children sample_deep sample_deep_well_formed)
    as [H _].
  cbn in H. destruct H as (subpackages & H1 & _ & H3).
  split; [reflexivity|]. rewrite H3. injection H1 as <-. reflexivity.
Defined.

Lemma get_submodule_composes_witness :
  get_submodule sample_deep (["sub"] ++ ["a"]) =
  Return (Some (leaf "a" ["pkg"; "lib"; "sub"; "a.jsx"])).
Proof.
  rewrite (get_submodule_composes ["sub"] sample_deep ["a"]);
    [reflexivity | discriminate | discriminate].
Defined.

Lemma require_loads_the_module_reached_witness :
  require (host := sample_host) [("pkg", sample_deep)] "pkg/sub/a" =
  load (host := sample_host) ["pkg"; "sub"; "a"]
       (leaf "a" ["pkg"; "lib"; "sub"; "a.jsx"]).
Proof.
  apply (require_loads_the_module_reached (host := sample_host)
           [("pkg", sample_deep)] "pkg" ["sub"; "a"] sample_deep).
  - reflexivity.
  - reflexivity.
  - repeat constructor.
  - discriminate.
  - reflexivity.
  - reflexivity.
Defined.


Lemma keys_and_values_line_up_witness :
  keys [("name", VStr "Belgium"); ("continent", VStr "Europe")] =
    ["name"; "continent"]
  /\ values [("name", VStr "Belgium"); ("continent", VStr "Europe")] =
    [VStr "Belgium"; VStr "Europe"].
Proof.
  destruct (keys_and_values_line_up
              [("name", VStr "Belgium"); ("continent", VStr "Europe")])
    as (Hk & Hv & _).
  - repeat (constructor; [cbn; intuition discriminate|]). constructor.
  - reflexivity.
  - reflexivity.
  - rewrite Hk, Hv. split; reflexivity.
Defined.

Lemma clone_reads_like_the_original_witness :
  clone [("name", VStr "Belgium")] =
    ("name", VStr "Belgium") :: Object_prototype
  /\ keys (clone [("name", VStr "Belgium")]) = ["name"]
  /\ values (clone [("name", VStr "Belgium")]) = [VStr "Belgium"].
Proof.
  split; [reflexivity|].
  destruct (clone_reads_like_the_original [("name", VStr "Belgium")] eq_refl)
    as (_ & _ & H).
  destruct H as [Hk Hv].
  - repeat (constructor; [cbn; intuition discriminate|]). constructor.
  - reflexivity.
  - reflexivity.
  - rewrite Hk, Hv. split; reflexivity.
Defined.

Lemma endswith_only_when_first_occurrence_is_final_witness :
  exists stem, "index.jsx" = stem ++ ".jsx".
Proof.
  destruct (proj1 (endswith_only_when_first_occurrence_is_final
                     "index.jsx" ".jsx" ltac:(discriminate) ltac:(cbn; lia))
                  eq_refl) as [H _].
  exact H.
Defined.

Lemma endswith_accepts_one_short_witness : endswith "abc" ".jsx" = true.
Proof.
  exact (endswith_accepts_one_short "abc" ".jsx" ltac:(discriminate) eq_refl).
Defined.

Lemma basename_keeps_the_dot_after_an_inner_dot_witness :
  basename "a.b.jsx" = "a.b.".
Proof.
  destruct (basename_keeps_the_dot_after_an_inner_dot "a.b" "jsx"
              eq_refl eq_refl ltac:(discriminate)) as [_ H].
  exact H.
Defined.

Lemma range_is_the_progression_witness :
  exists len,
    Number_range 100 [0; 30; 5]%Z =
    Some (map (fun k => (0 + Z.of_nat k * 5)%Z) (seq 0 len)).
Proof.
  destruct (range_is_the_progression 0 30 5 100) as [(len & H & _) _].
  - vm_compute. discriminate.
  - reflexivity.
  - reflexivity.
  - exists len. exact H.
Defined.

Lemma range_counts_up_witness :
  Number_range 100 [10%Z] = Some [0; 1; 2; 3; 4; 5; 6; 7; 8; 9]%Z.
Proof.
  exact (proj1 (range_counts_up 10 100 eq_refl eq_refl)).
Defined.

Lemma range_stuck_where_doubles_are_sparse_witness :
  Number_range 1000 [2 ^ 53; 2 ^ 53 + 2; 1]%Z = None.
Proof.
  apply range_stuck_where_doubles_are_sparse.
  - discriminate.
  - reflexivity.
  - reflexivity.
Defined.

(** The examples the patches document. *)
Example documented_examples :
  basename "three.jsx" = "three"
  /\ extension "three.jsx" = "jsx"
  /\ Number_range 100 [10%Z] = Some [0; 1; 2; 3; 4; 5; 6; 7; 8; 9]%Z
  /\ Number_range 100 [0; 30; 5]%Z = Some [0; 5; 10; 15; 20; 25]%Z
  /\ Number_range 100 [0; -10; -1]%Z =
     Some [0; -1; -2; -3; -4; -5; -6; -7; -8; -9]%Z
  /\ Number_range 100 [1; 0]%Z = Some [].
Proof. repeat split. Qed.
